(** * ai2thor.interact: the interactive controller prompt

    A shallow embedding of [ai2thor/interact.py]: the key-sequence
    interpreter ([next_interact_command]), the per-step affordance
    enumeration inside [interact] (with its [add_command] closure), the frame
    writer ([write_image]) and the session loop that ties them together.

    Python values are modelled by [pyval], exceptions by [result], dictionaries
    read by key by [gmap], dictionaries whose insertion order is observable
    (the commands) by association lists with Python's update discipline. *)

From Stdlib Require Import ZArith QArith Qcanon Ascii String.
From stdpp Require Import base option list strings gmap pretty.

Open Scope string_scope.
Open Scope Z_scope.

(** ** Python values and exceptions *)

(** The scalar values that event metadata and commands carry.  A float is
    the rational it denotes (every finite double is one). *)
Inductive pyval :=
  | VNone
  | VBool (b : bool)
  | VInt (z : Z)
  | VFloat (q : Qc)
  | VStr (s : string).

(** Python's truth value testing, as used by [if o['visible']:]. *)
Definition truthy (v : pyval) : bool :=
  match v with
  | VNone => false
  | VBool b => b
  | VInt z => negb (z =? 0)
  | VFloat q => negb (Qeq_bool q 0)
  | VStr s => negb (s =? "")%string
  end.

(** Numbers compare by value across [bool], [int] and [float]. *)
Definition py_num (v : pyval) : option Q :=
  match v with
  | VBool b => Some (inject_Z (Z.b2z b))
  | VInt z => Some (inject_Z z)
  | VFloat q => Some (this q)
  | VNone | VStr _ => None
  end.

(** Python's [==] on scalars. *)
Definition py_eq (a b : pyval) : bool :=
  match a, b with
  | VNone, VNone => true
  | VStr s, VStr t => (s =? t)%string
  | _, _ =>
      match py_num a, py_num b with
      | Some x, Some y => Qeq_bool x y
      | _, _ => false
      end
  end.

Inductive exn :=
  | KeyError (key : string)
  | TypeError
  | RuntimeError (msg : string)
  | TermiosError.

Inductive result (A : Type) :=
  | Ok (a : A)
  | Raise (e : exn).
Arguments Ok {A} a.
Arguments Raise {A} e.

#[global] Instance result_ret : MRet result := λ A a, Ok a.
#[global] Instance result_bind : MBind result := λ A B f m,
  match m with
  | Ok a => f a
  | Raise e => Raise e
  end.

(** [foldM]: a [for] loop whose body may raise. *)
Fixpoint for_each {A S : Type} (body : S → A → result S) (s : S) (l : list A)
    : result S :=
  match l with
  | [] => Ok s
  | a :: l' => s' ← body s a; for_each body s' l'
  end.

(** ** Dictionaries *)

(** A metadata dictionary, only ever read by key. *)
Abbreviation pydict := (gmap string pyval).

(** [d[k]], raising [KeyError] when the key is absent. *)
Definition getitem (d : pydict) (k : string) : result pyval :=
  match d !! k with
  | Some v => Ok v
  | None => Raise (KeyError k)
  end.

(** A command, [dict(action=..., **args)]: an insertion-ordered dictionary. *)
Abbreviation command := (list (string * pyval)).

(** [d[k] = v] on an insertion-ordered dictionary: an existing key keeps its
    place, a new key goes last. *)
Fixpoint dict_set (d : command) (k : string) (v : pyval) : command :=
  match d with
  | [] => [(k, v)]
  | (k', v') :: d' =>
      if (k' =? k)%string then (k', v) :: d' else (k', v') :: dict_set d' k v
  end.

(** [d.update(args)]. *)
Definition dict_update (d args : command) : command :=
  foldl (λ acc kv, dict_set acc kv.1 kv.2) d args.

(** [d.get(k)] / [k in d]. *)
Fixpoint dict_get (d : command) (k : string) : option pyval :=
  match d with
  | [] => None
  | (k', v) :: d' => if (k' =? k)%string then Some v else dict_get d' k
  end.

(** A command table: key sequence to command. *)
Abbreviation table := (gmap string command).

(** ** Event metadata *)

(** [event.metadata]: the object descriptors, the inventory, and the agent's
    position (which the module only formats for printing, so it is kept as
    the text [format] renders). *)
Record metadata := {
  objects : list pydict;
  inventoryObjects : list pydict;
  agent_position : string
}.

(** ** [add_command] and the affordance enumeration (interact, l. 94-143) *)

(** The two locals the closure updates: [new_commands] and
    [command_counter['counter']]. *)
Record slots := {
  new_commands : table;
  counter : Z
}.

(** l. 94-95 *)
Definition fresh_slots : slots := {| new_commands := ∅; counter := 1 |}.

(** l. 97-102 *)
Definition add_command (cc : slots) (action : string) (args : command) : slots :=
  if counter cc <? 15 then
    let com := dict_update [("action", VStr action)] args in
    {| new_commands := <[pretty (counter cc) := com]> (new_commands cc);
       counter := counter cc + 1 |}
  else cc.

(** The float literal [0.1]: the double nearest to one tenth. *)
Definition float_0_1 : Qc := Q2Qc (3602879701896397 # 36028797018963968).

(** The float literal [0.25]. *)
Definition float_0_25 : Qc := Q2Qc (1 # 4).

(** l. 122-126 *)
Definition openable_branch (o : pydict) (cc : slots) : result slots :=
  openable ← getitem o "openable";
  if truthy openable then
    isopen ← getitem o "isopen";
    if truthy isopen then
      oid ← getitem o "objectId";
      Ok (add_command cc "CloseObject" [("objectId", oid)])
    else
      oid ← getitem o "objectId";
      Ok (add_command cc "OpenObject" [("objectId", oid)])
  else Ok cc.

(** l. 127-128: ['toggleable' in o and o['toggleable']] *)
Definition toggleable_branch (o : pydict) (cc : slots) : result slots :=
  match o !! "toggleable" with
  | Some t =>
      if truthy t then
        oid ← getitem o "objectId";
        Ok (add_command cc "ToggleObjectOff" [("objectId", oid)])
      else Ok cc
  | None => Ok cc
  end.

(** The condition of l. 132, with Python's short-circuit evaluation. *)
Definition put_condition (o : pydict) (inventoryObjectId : pyval) : result bool :=
  receptacle ← getitem o "receptacle";
  if truthy receptacle then
    openable ← getitem o "openable";
    accessible ← (if negb (truthy openable) then Ok true
                  else isopen ← getitem o "isopen"; Ok (truthy isopen));
    if accessible : bool then
      oid ← getitem o "objectId";
      Ok (negb (py_eq inventoryObjectId oid))
    else Ok false
  else Ok false.

(** l. 133-140 *)
Definition put_commands (o : pydict) (inventoryObjectId : pyval) (cc : slots)
    : result slots :=
  oid ← getitem o "objectId";
  let cc := add_command cc "PutObject"
              [("objectId", inventoryObjectId); ("receptacleObjectId", oid)] in
  let cc := add_command cc "MoveHandAhead" [("moveMagnitude", VFloat float_0_1)] in
  let cc := add_command cc "MoveHandBack" [("moveMagnitude", VFloat float_0_1)] in
  let cc := add_command cc "MoveHandRight" [("moveMagnitude", VFloat float_0_1)] in
  let cc := add_command cc "MoveHandLeft" [("moveMagnitude", VFloat float_0_1)] in
  let cc := add_command cc "MoveHandUp" [("moveMagnitude", VFloat float_0_1)] in
  let cc := add_command cc "MoveHandDown" [("moveMagnitude", VFloat float_0_1)] in
  Ok (add_command cc "DropHandObject" []).

(** l. 130-143 *)
Definition inventory_branch (md : metadata) (o : pydict) (cc : slots)
    : result slots :=
  match inventoryObjects md with
  | first :: _ =>
      inventoryObjectId ← getitem first "objectId";
      put ← put_condition o inventoryObjectId;
      if put : bool then put_commands o inventoryObjectId cc else Ok cc
  | [] =>
      pickupable ← getitem o "pickupable";
      if truthy pickupable then
        oid ← getitem o "objectId";
        Ok (add_command cc "PickupObject" [("objectId", oid)])
      else Ok cc
  end.

(** The loop state: [visible_objects] and the slots. *)
Record enum_state := {
  visible_objects : list pyval;
  cmds : slots
}.

(** The body of the loop of l. 119-143 for one descriptor. *)
Definition enumerate_object (md : metadata) (st : enum_state) (o : pydict)
    : result enum_state :=
  visible ← getitem o "visible";
  if truthy visible then
    oid ← getitem o "objectId";
    cc ← openable_branch o (cmds st);
    cc ← toggleable_branch o cc;
    cc ← inventory_branch md o cc;
    Ok {| visible_objects := visible_objects st ++ [oid]; cmds := cc |}
  else Ok st.

(** l. 118-143 *)
Definition enumerate_affordances (has_object_actions : bool) (md : metadata)
    : result enum_state :=
  let st := {| visible_objects := []; cmds := fresh_slots |} in
  if has_object_actions then for_each (enumerate_object md) st (objects md)
  else Ok st.

(** ** The static key table ([__init__], l. 49-74) *)

Inductive DefaultActions :=
  | MoveRight | MoveLeft | MoveAhead | MoveBack
  | LookUp | LookDown | RotateRight | RotateLeft.

(** [a.name] *)
Definition name (a : DefaultActions) : string :=
  match a with
  | MoveRight => "MoveRight" | MoveLeft => "MoveLeft"
  | MoveAhead => "MoveAhead" | MoveBack => "MoveBack"
  | LookUp => "LookUp" | LookDown => "LookDown"
  | RotateRight => "RotateRight" | RotateLeft => "RotateLeft"
  end.

Definition all_default_actions : list DefaultActions :=
  [MoveRight; MoveLeft; MoveAhead; MoveBack; LookUp; LookDown; RotateRight; RotateLeft].

(** The escape byte [\x1b] and the interrupt byte [\x03]. *)
Definition ESC : ascii := "027"%char.
Definition ETX : ascii := "003"%char.

(** [dict(action=a, moveMagnitude=0.25)] and [dict(action=a)]. *)
Definition move_command (a : string) : command :=
  [("action", VStr a); ("moveMagnitude", VFloat float_0_25)].
Definition plain_command (a : string) : command := [("action", VStr a)].

(** The literal of l. 56-69, in source order. *)
Definition default_interact_commands_literal : list (string * command) :=
  [ (String ESC "[C", move_command "MoveRight");
    (String ESC "[D", move_command "MoveLeft");
    (String ESC "[A", move_command "MoveAhead");
    (String ESC "[B", move_command "MoveBack");
    (String ESC "[1;2A", plain_command "LookUp");
    (String ESC "[1;2B", plain_command "LookDown");
    ("i", plain_command "LookUp");
    ("k", plain_command "LookDown");
    ("l", plain_command "RotateRight");
    ("j", plain_command "RotateLeft");
    (String ESC "[1;2C", plain_command "RotateRight");
    (String ESC "[1;2D", plain_command "RotateLeft") ].

(** [v['action'] in action_set] *)
Definition action_in (action_set : gset string) (v : command) : bool :=
  match dict_get v "action" with
  | Some (VStr a) => bool_decide (a ∈ action_set)
  | _ => false
  end.

(** The instance attributes.  [_interact_commands] is created by [interact]
    (l. 89) before anything reads it; until then the field is empty. *)
Record prompt := {
  default_actions : list DefaultActions;
  has_object_actions : bool;
  image_per_frame : bool;
  image_dir : string;
  self_counter : Z;
  default_interact_commands : table;
  _interact_commands : table
}.

(** [InteractiveControllerPrompt.__init__] *)
Definition init (default_actions : list DefaultActions) (has_object_actions : bool)
    (image_dir : string) (image_per_frame : bool) : prompt :=
  let action_set : gset string := list_to_set (name <$> default_actions) in
  {| default_actions := default_actions;
     has_object_actions := has_object_actions;
     image_per_frame := image_per_frame;
     image_dir := image_dir;
     self_counter := 0;
     default_interact_commands :=
       list_to_map
         (filter (λ kv, action_in action_set kv.2 = true)
                 default_interact_commands_literal);
     _interact_commands := ∅ |}.

(** ** The key-sequence interpreter ([next_interact_command], l. 166-185) *)

(** What one turn of the [while True] loop does with the character read. *)
Inductive turn :=
  | Break                       (* l. 172: the generator returns *)
  | Yield (c : command)         (* l. 175-176: a command, buffer reset *)
  | Buffer (current_buffer : string).  (* l. 177-185: no output *)

(** l. 179-182: some key of the table starts with the buffer. *)
Definition some_key_startswith (commands : table) (current_buffer : string) : bool :=
  existsb (λ kv, String.prefix current_buffer kv.1) (map_to_list commands).

(** l. 169-185, for the character [ch] returned by [get_term_character]. *)
Definition interpret (commands : table) (current_buffer : string) (ch : ascii) : turn :=
  let current_buffer := current_buffer +:+ String ch "" in
  if (current_buffer =? "q")%string || (current_buffer =? String ETX "")%string then Break
  else
    match commands !! current_buffer with
    | Some c => Yield c
    | None =>
        if some_key_startswith commands current_buffer
        then Buffer current_buffer
        else Buffer ""
    end.

(** Feeding characters against a table that stays the same: the commands
    yielded, and the buffer left ([None] once the loop has ended). *)
Fixpoint feed (commands : table) (current_buffer : string) (chars : list ascii)
    : list command * option string :=
  match chars with
  | [] => ([], Some current_buffer)
  | ch :: chars' =>
      match interpret commands current_buffer ch with
      | Break => ([], None)
      | Yield c => let r := feed commands "" chars' in (c :: r.1, r.2)
      | Buffer b => feed commands b chars'
      end
  end.

(** l. 145-146: the active table of a step. *)
Definition active_table (defaults new_commands : table) : table :=
  new_commands ∪ defaults.

(** ** Library string functions the module calls *)

(** [str.strip(chars)]: drop leading, then trailing, characters that occur
    in [chars]. *)
Definition in_chars (chars : string) (c : ascii) : bool :=
  existsb (Ascii.eqb c) (list_ascii_of_string chars).

Fixpoint lstrip (chars s : string) : string :=
  match s with
  | EmptyString => EmptyString
  | String c s' => if in_chars chars c then lstrip chars s' else s
  end.

Definition rstrip (chars s : string) : string :=
  String.rev (lstrip chars (String.rev s)).

Definition strip (chars s : string) : string := rstrip chars (lstrip chars s).

(** [s.endswith(t)] *)
Definition endswith (s t : string) : bool :=
  String.prefix (String.rev t) (String.rev s).

(** [os.path.join(a, b)] of [posixpath]. *)
Definition path_join (a b : string) : string :=
  if String.prefix "/" b then b
  else if (a =? "")%string || endswith a "/" then a +:+ b
  else a +:+ "/" +:+ b.

(** ** The frame writer ([write_image], l. 187-272) *)

Section FrameWriter.

(** Frames are numpy arrays; what numpy and OpenCV compute on them is
    outside the module. *)
Context {frame : Type}.
Variable shape_str : frame → string.        (* the text of [frame.shape] *)
Variable cvtColor_BGR2RGB : frame → frame.  (* [cv2.cvtColor(_, COLOR_BGR2RGB)] *)
Variable minmax_uint8 : frame → frame.
  (* [(255.0 / data.max() * (data - data.min())).astype(np.uint8)] *)
Variable astype_float32 : frame → frame.    (* [x.astype(np.float32)] *)

Record event := {
  ev_frame : option frame;
  instance_segmentation_frame : option frame;
  class_segmentation_frame : option frame;
  depth_frame : option frame;
  ev_metadata : metadata
}.

(** What the module does to the outside world. *)
Inductive effect :=
  | Print (line : string)
  | ImWrite (filename : string) (img : frame)   (* [cv2.imwrite] *)
  | NpSave (file : string) (arr : frame)        (* [np.save] *)
  | Step (a : command).                         (* [controller.step] *)

(** l. 200-208 *)
Definition save_image (flip_br : bool) (name : string) (image : frame) : effect :=
  let img := if flip_br then cvtColor_BGR2RGB image else image in
  ImWrite name img.

(** l. 210-212 *)
Definition array_to_image (arr : frame) : frame := arr.

(** One tuple of [frame_writes]. *)
Record channel := {
  frame_filename : string;
  condition : bool;
  frame_func : event → option frame;
  transform : frame → frame;
  save : string → frame → effect
}.

(** l. 215-248 *)
Definition frame_writes
    (class_segmentation_flag instance_segmentation_flag depth_flag color_flag : bool)
    : list channel :=
  [ {| frame_filename := "color";
       condition := color_flag;
       frame_func := ev_frame;
       transform := array_to_image;
       save := save_image true |};
    {| frame_filename := "instance_segmentation";
       condition := instance_segmentation_flag;
       frame_func := instance_segmentation_frame;
       transform := array_to_image;
       save := save_image false |};
    {| frame_filename := "class_segmentation";
       condition := class_segmentation_flag;
       frame_func := class_segmentation_frame;
       transform := array_to_image;
       save := save_image false |};
    {| frame_filename := "depth";
       condition := depth_flag;
       frame_func := depth_frame;
       transform := λ data, array_to_image (minmax_uint8 data);
       save := save_image false |};
    {| frame_filename := "depth_raw";
       condition := depth_flag;
       frame_func := depth_frame;
       transform := λ x, x;
       save := λ name x, NpSave (strip ".png" name) (astype_float32 x) |} ].

(** l. 260-267 *)
Definition image_name_of (image_dir : string) (suffix : Z) (per_frame : bool)
    (filename : string) : string :=
  path_join image_dir
    (filename +:+ (if per_frame then pretty suffix else "") +:+ ".png").

(** The loop body, l. 251-272.  The tuple's [condition] is bound by the
    [for] but the body never reads it. *)
Definition write_channel (ev : event) (image_dir : string) (suffix : Z)
    (per_frame : bool) (ch : channel) : list effect :=
  match frame_func ch ev with
  | Some frame0 =>
      let frame1 := transform ch frame0 in
      let image_name := image_name_of image_dir suffix per_frame (frame_filename ch) in
      [ Print (shape_str frame0);
        Print ("Image " +:+ image_name);
        save ch image_name frame1 ]
  | None =>
      [ Print "No frame present, call initialize with the right parameters" ]
  end.

(** [write_image], keyword arguments in the order of the signature. *)
Definition write_image (ev : event) (image_dir : string) (suffix : Z)
    (per_frame class_segmentation_flag instance_segmentation_flag
     depth_flag color_flag : bool) : list effect :=
  flat_map (write_channel ev image_dir suffix per_frame)
    (frame_writes class_segmentation_flag instance_segmentation_flag
                  depth_flag color_flag).

(** An effect that touches the file system. *)
Definition is_disk_write (e : effect) : bool :=
  match e with
  | ImWrite _ _ | NpSave _ _ => true
  | Print _ | Step _ => false
  end.

(** The "No frame present" diagnostic. *)
Definition is_no_frame_diagnostic (e : effect) : bool :=
  match e with
  | Print line => String.prefix "No frame present" line
  | _ => false
  end.

End FrameWriter.

(** ** Console listing helpers (interact, l. 148-164) *)

(** [sorted] on strings: insertion by [String.leb], the code-unit order. *)
Fixpoint insert_sorted (s : string) (l : list string) : list string :=
  match l with
  | [] => [s]
  | t :: l' => if String.leb s t then s :: l else t :: insert_sorted s l'
  end.

Definition sorted (l : list string) : list string := foldr insert_sorted [] l.

(** The strings of a list of values, if all of them are strings. *)
Fixpoint as_strs (l : list pyval) : option (list string) :=
  match l with
  | [] => Some []
  | VStr s :: l' => cons s <$> as_strs l'
  | _ :: _ => None
  end.

(** [sep.join(l)] on strings. *)
Fixpoint join (sep : string) (l : list string) : string :=
  match l with
  | [] => ""
  | [s] => s
  | s :: l' => s +:+ sep +:+ join sep l'
  end.

(** [sep.join(l)]: a [TypeError] unless every item is a [str]. *)
Definition py_join (sep : string) (l : list pyval) : result string :=
  match as_strs l with
  | Some ss => Ok (join sep ss)
  | None => Raise TypeError
  end.

(** ["\n".join(sorted(l))]: with an item that is not a [str], either
    [sorted] or [join] raises [TypeError]. *)
Definition join_sorted (sep : string) (l : list pyval) : result string :=
  match as_strs l with
  | Some ss => Ok (join sep (sorted ss))
  | None => Raise TypeError
  end.

Definition newline : string := String "010"%char "".

Definition command_message : string :=
  "Enter a Command: Move ←↑→↓, Rotate/Look Shift + ←↑→↓, Quit 'q' or Ctrl-C".

Definition usage_error : exn :=
  RuntimeError "controller.interact() must be run from a terminal".

(** ** The session ([interact], l. 76-164) *)

(** The terminal the process is attached to: whether each stream is a tty,
    and the characters the user will type. *)
Record terminal := {
  stdin_isatty : bool;
  stdout_isatty : bool;
  pending : list ascii
}.

(** The keyword arguments of [interact]. *)
Record frame_flags := {
  class_segmentation_flag : bool;
  instance_segmentation_flag : bool;
  depth_flag : bool;
  color_flag : bool
}.

Section Session.

Context {frame : Type}.
Variable shape_str : frame → string.
Variable cvtColor_BGR2RGB : frame → frame.
Variable minmax_uint8 : frame → frame.
Variable astype_float32 : frame → frame.

(** [str] of a float, used by ["%s" % av]. *)
Variable float_str : Qc → string.

(** The controller: its state and [controller.step]. *)
Context {controller : Type}.
Variable controller_step :
  controller → command → result (controller * @event frame).

(** [str(v)] *)
Definition py_str (v : pyval) : string :=
  match v with
  | VNone => "None"
  | VBool true => "True"
  | VBool false => "False"
  | VInt z => pretty z
  | VFloat q => float_str q
  | VStr s => s
  end.

(** l. 152-164 for one slot. *)
Definition command_info (k : string) (v : command) : result string :=
  action ← match dict_get v "action" with
           | Some a => Ok a
           | None => Raise (KeyError "action")
           end;
  let head := [VStr (k +:+ ")"); action] in
  let target := match dict_get v "objectId" with
                | Some oid => [oid]
                | None => []
                end in
  let rest := (λ kv : string * pyval, VStr (kv.1 +:+ ": " +:+ py_str kv.2)) <$>
              filter (λ kv, kv.1 ≠ "action" ∧ kv.1 ≠ "objectId") v in
  py_join " " (head ++ target ++ rest)%list.

(** The loop of l. 153-164: lines printed until one raises. *)
Fixpoint print_commands (new_commands : table) (keys : list string)
    : list (@effect frame) * option exn :=
  match keys with
  | [] => ([], None)
  | k :: keys' =>
      match new_commands !! k with
      | None => ([], Some (KeyError k))
      | Some v =>
          match command_info k v with
          | Raise e => ([], Some e)
          | Ok line =>
              let r := print_commands new_commands keys' in
              (Print line :: r.1, r.2)
          end
      end
  end.

(** l. 148-164 *)
Definition print_status (md : metadata) (st : enum_state)
    : list (@effect frame) * option exn :=
  let head := [ Print ("Position: " +:+ agent_position md);
                Print command_message ] in
  match join_sorted newline (visible_objects st) with
  | Raise e => (head, Some e)
  | Ok visible =>
      let r := print_commands (new_commands (cmds st))
                 (sorted (map_to_list (new_commands (cmds st))).*1) in
      ((head ++ Print ("Visible Objects:" +:+ newline +:+ visible) :: r.1)%list, r.2)
  end.

(** The body of the [for a in self.next_interact_command()] loop,
    l. 94-164: effects, then the updated instance and controller, or the
    exception that ends the session. *)
Definition step_body (flags : frame_flags) (self : prompt) (ctl : controller)
    (a : command) : list (@effect frame) * result (prompt * controller) :=
  match controller_step ctl a with
  | Raise e => ([Step a], Raise e)
  | Ok (ctl', ev) =>
      let written :=
        write_image shape_str cvtColor_BGR2RGB minmax_uint8 astype_float32
          ev (image_dir self) (self_counter self) (image_per_frame self)
          (class_segmentation_flag flags) (instance_segmentation_flag flags)
          (depth_flag flags) (color_flag flags) in
      match enumerate_affordances (has_object_actions self) (ev_metadata ev) with
      | Raise e => (Step a :: written, Raise e)
      | Ok st =>
          let self' :=
            {| default_actions := default_actions self;
               has_object_actions := has_object_actions self;
               image_per_frame := image_per_frame self;
               image_dir := image_dir self;
               self_counter := self_counter self + 1;
               default_interact_commands := default_interact_commands self;
               _interact_commands :=
                 active_table (default_interact_commands self)
                              (new_commands (cmds st)) |} in
          let printed := print_status (ev_metadata ev) st in
          ((Step a :: written ++ printed.1)%list,
           match printed.2 with
           | None => Ok (self', ctl')
           | Some e => Raise e
           end)
      end
  end.

(** How a run of [interact] on a finite stretch of input ends. *)
Inductive ending :=
  | Returned (self : prompt) (ctl : controller)
  | Waiting (self : prompt) (ctl : controller) (current_buffer : string)
  | Raised (e : exn).

(** [get_term_character], l. 37-45, on the characters the user will type:
    [termios.tcgetattr] fails unless stdin is a terminal; otherwise one
    character is read in raw mode ([None]: the read blocks) and the terminal
    settings are restored. *)
Definition get_term_character (isatty : bool) (input : list ascii)
    : result (option (ascii * list ascii)) :=
  if negb isatty then Raise TermiosError
  else
    match input with
    | [] => Ok None
    | ch :: input' => Ok (Some (ch, input'))
    end.

(** The generator driven by the [for] loop, with the read of
    [get_term_character] written out so that the recursion is on the input
    (see [session_loop_read]). *)
Fixpoint session_loop (flags : frame_flags) (isatty : bool) (self : prompt)
    (ctl : controller) (current_buffer : string) (input : list ascii)
    : list (@effect frame) * ending :=
  if negb isatty then ([], Raised TermiosError)
  else
    match input with
    | [] => ([], Waiting self ctl current_buffer)
    | ch :: input' =>
        match interpret (_interact_commands self) current_buffer ch with
        | Break => ([], Returned self ctl)
        | Buffer b => session_loop flags isatty self ctl b input'
        | Yield a =>
            match step_body flags self ctl a with
            | (out, Ok (self', ctl')) =>
                let r := session_loop flags isatty self' ctl' "" input' in
                ((out ++ r.1)%list, r.2)
            | (out, Raise e) => (out, Raised e)
            end
        end
    end.

(** [interact] *)
Definition interact (self : prompt) (ctl : controller) (flags : frame_flags)
    (t : terminal) : list (@effect frame) * ending :=
  if negb (stdout_isatty t) then ([], Raised usage_error)
  else
    let self :=
      {| default_actions := default_actions self;
         has_object_actions := has_object_actions self;
         image_per_frame := image_per_frame self;
         image_dir := image_dir self;
         self_counter := self_counter self;
         default_interact_commands := default_interact_commands self;
         _interact_commands := default_interact_commands self |} in
    let r := session_loop flags (stdin_isatty t) self ctl "" (pending t) in
    (Print command_message :: r.1, r.2).

End Session.

(** * Specification vocabulary *)

(** The truth value of attribute [k] of a descriptor, if it has one. *)
Definition attr (o : pydict) (k : string) : option bool := truthy <$> (o !! k).

(** [grows P cc cc']: [cc'] comes from [cc] by calls of [add_command], each
    with a command that satisfies [P]. *)
Inductive grows (P : command → Prop) : slots → slots → Prop :=
  | grows_refl cc : grows P cc cc
  | grows_add cc cc' action args :
      grows P cc cc' →
      P (dict_update [("action", VStr action)] args) →
      grows P cc (add_command cc' action args).

(** The invariant of the closure's state: the keys are exactly the decimal
    strings of [1 .. counter - 1], and the counter never passes 15. *)
Record slots_ok (cc : slots) : Prop := {
  counter_range : 1 ≤ counter cc ≤ 15;
  keys_numbered : ∀ k, is_Some (new_commands cc !! k) ↔
                       ∃ n, 1 ≤ n < counter cc ∧ k = pretty n;
  size_counter : size (new_commands cc) = Z.to_nat (counter cc - 1)
}.

Definition hand_moves : list string :=
  ["MoveHandAhead"; "MoveHandBack"; "MoveHandRight"; "MoveHandLeft";
   "MoveHandUp"; "MoveHandDown"].

(** [affordance md o com]: [com] is a command the enumeration may register
    while it handles descriptor [o] of an event with metadata [md]. *)
Inductive affordance (md : metadata) (o : pydict) : command → Prop :=
  | aff_close oid v :
      o !! "objectId" = Some oid →
      o !! "isopen" = Some v → truthy v = true →
      affordance md o [("action", VStr "CloseObject"); ("objectId", oid)]
  | aff_open oid v :
      o !! "objectId" = Some oid →
      o !! "isopen" = Some v → truthy v = false →
      affordance md o [("action", VStr "OpenObject"); ("objectId", oid)]
  | aff_toggle oid t :
      o !! "objectId" = Some oid →
      o !! "toggleable" = Some t → truthy t = true →
      affordance md o [("action", VStr "ToggleObjectOff"); ("objectId", oid)]
  | aff_put first rest inv oid :
      inventoryObjects md = first :: rest →
      first !! "objectId" = Some inv →
      o !! "objectId" = Some oid →
      py_eq inv oid = false →
      affordance md o [("action", VStr "PutObject"); ("objectId", inv);
                       ("receptacleObjectId", oid)]
  | aff_hand first rest a :
      inventoryObjects md = first :: rest →
      a ∈ hand_moves →
      affordance md o [("action", VStr a); ("moveMagnitude", VFloat float_0_1)]
  | aff_drop first rest :
      inventoryObjects md = first :: rest →
      affordance md o [("action", VStr "DropHandObject")]
  | aff_pickup oid :
      inventoryObjects md = [] →
      o !! "objectId" = Some oid →
      affordance md o [("action", VStr "PickupObject"); ("objectId", oid)].

(** A command registered for some descriptor of the event. *)
Definition event_affordance (md : metadata) (com : command) : Prop :=
  ∃ o, o ∈ objects md ∧ affordance md o com.

(** [add_command(cc, action, **args)] for each pair, in list order. *)
Definition register (cc : slots) (calls : list (string * command)) : slots :=
  foldl (λ cc call, add_command cc call.1 call.2) cc calls.

(** The command [add_command] builds. *)
Definition built (call : string * command) : command :=
  dict_update [("action", VStr call.1)] call.2.

(** Enumeration succeeds on every event whose descriptors carry the
    attributes the loop reads. *)
Definition complete (o : pydict) : Prop :=
  ∀ k, k ∈ ["visible"; "objectId"; "openable"; "isopen"; "receptacle"; "pickupable"] →
       is_Some (o !! k).

Definition well_formed (md : metadata) : Prop :=
  Forall complete (objects md) ∧
  match inventoryObjects md with
  | first :: _ => is_Some (first !! "objectId")
  | [] => True
  end.

(** The non-empty proper prefixes of a key. *)
Fixpoint proper_prefixes (k : string) : list string :=
  match k with
  | EmptyString => []
  | String a k' =>
      match k' with
      | EmptyString => []
      | String _ _ => String a "" :: (String a <$> proper_prefixes k')
      end
  end.

Definition static_keys : list string := default_interact_commands_literal.*1.

(** "1" .. "14" *)
Definition slot_keys : list string := (λ n, pretty (Z.of_nat n)) <$> seq 1 14.

Definition possible_keys : list string := static_keys ++ slot_keys.

Definition two_digit_keys : list string := ["10"; "11"; "12"; "13"; "14"].

(** A key that is not a quit sequence and none of whose proper prefixes is
    a possible key or a quit sequence. *)
Definition selectable (k : string) : bool :=
  negb (k =? "")%string && negb (k =? "q")%string
  && negb (k =? String ETX "")%string
  && forallb (λ p, negb (bool_decide (p ∈ possible_keys))
                   && negb (p =? "q")%string && negb (p =? String ETX "")%string)
       (proper_prefixes k).

(** The commands a trace hands to the controller. *)
Fixpoint dispatched {frame : Type} (trace : list (@effect frame)) : list command :=
  match trace with
  | [] => []
  | Step a :: trace' => a :: dispatched trace'
  | _ :: trace' => dispatched trace'
  end.

(** The buffer a run is left waiting with. *)
Definition buffer_left {controller : Type} (e : @ending controller)
    : option string :=
  match e with
  | Waiting _ _ current_buffer => Some current_buffer
  | _ => None
  end.

(** ** Sample events and sessions *)

(** A closed, pickupable box; nothing is held. *)
Definition closed_box : pydict :=
  list_to_map
    [("objectId", VStr "Box|1"); ("visible", VBool true);
     ("openable", VBool true); ("isopen", VBool false);
     ("toggleable", VBool false); ("receptacle", VBool false);
     ("pickupable", VBool true)].

Definition box_md : metadata :=
  {| objects := [closed_box]; inventoryObjects := []; agent_position := "" |}.

Definition start : enum_state :=
  {| visible_objects := []; cmds := fresh_slots |}.

(** An open fridge that can be switched off, and an apple in the hand. *)
Definition fridge : pydict :=
  list_to_map
    [("objectId", VStr "Fridge|1"); ("visible", VBool true);
     ("openable", VBool true); ("isopen", VBool true);
     ("toggleable", VBool true); ("receptacle", VBool true);
     ("pickupable", VBool false)].

Definition apple : pydict := list_to_map [("objectId", VStr "Apple|1")].

Definition fridge_md : metadata :=
  {| objects := [fridge]; inventoryObjects := [apple]; agent_position := "" |}.

(** The calls of [add_command] for an open, toggleable receptacle while
    [inv] is held, in source order. *)
Definition open_receptacle_calls (inv oid : pyval) : list (string * command) :=
  [ ("CloseObject", [("objectId", oid)]);
    ("ToggleObjectOff", [("objectId", oid)]);
    ("PutObject", [("objectId", inv); ("receptacleObjectId", oid)]);
    ("MoveHandAhead", [("moveMagnitude", VFloat float_0_1)]);
    ("MoveHandBack", [("moveMagnitude", VFloat float_0_1)]);
    ("MoveHandRight", [("moveMagnitude", VFloat float_0_1)]);
    ("MoveHandLeft", [("moveMagnitude", VFloat float_0_1)]);
    ("MoveHandUp", [("moveMagnitude", VFloat float_0_1)]);
    ("MoveHandDown", [("moveMagnitude", VFloat float_0_1)]);
    ("DropHandObject", []) ].

(** Two fridges and a table of three held items. *)
Definition pantry : pydict := <["objectId" := VStr "Fridge|2"]> fridge.
Definition bread : pydict := list_to_map [("objectId", VStr "Bread|1")].

Definition pantry_md : metadata :=
  {| objects := [fridge; pantry]; inventoryObjects := [apple; bread; bread];
     agent_position := "" |}.

Definition pantry_state : enum_state :=
  {| visible_objects := [VStr "Fridge|1"; VStr "Fridge|2"];
     cmds := register fresh_slots
               (open_receptacle_calls (VStr "Apple|1") (VStr "Fridge|1") ++
                open_receptacle_calls (VStr "Apple|1") (VStr "Fridge|2")) |}.

(** A lamp whose descriptor has no toggleable attribute. *)
Definition bare_lamp : pydict :=
  list_to_map
    [("objectId", VStr "Lamp|1"); ("visible", VBool true);
     ("openable", VBool false); ("isopen", VBool false);
     ("receptacle", VBool false); ("pickupable", VBool true)].

Definition lamp_md : metadata :=
  {| objects := [bare_lamp]; inventoryObjects := []; agent_position := "" |}.

(** The event of the fridge and the held apple fills ten slots. *)
Definition fridge_state : enum_state :=
  {| visible_objects := [VStr "Fridge|1"];
     cmds := register fresh_slots
               (open_receptacle_calls (VStr "Apple|1") (VStr "Fridge|1")) |}.

Definition all_defaults : table :=
  default_interact_commands (init all_default_actions true "." false).

Definition fridge_table : table :=
  active_table all_defaults (new_commands (cmds fridge_state)).

(** A session whose input is piped in while its output goes to a terminal;
    frames and the controller are trivial. *)
Definition piped_stdin : terminal :=
  {| stdin_isatty := false; stdout_isatty := true; pending := ["i"%char] |}.

Definition no_flags : frame_flags :=
  {| class_segmentation_flag := false; instance_segmentation_flag := false;
     depth_flag := false; color_flag := false |}.

Definition idle_controller (c : unit) (a : command) : result (unit * @event unit) :=
  Ok (c, {| ev_frame := None; instance_segmentation_frame := None;
            class_segmentation_frame := None; depth_frame := None;
            ev_metadata := {| objects := []; inventoryObjects := [];
                              agent_position := "" |} |}).

Definition idle_interact (self : prompt) (flags : frame_flags) (t : terminal)
    : list (@effect unit) * @ending unit :=
  interact (λ _, "()") id id id (λ _, "") idle_controller self tt flags t.

Definition no_terminal : terminal :=
  {| stdin_isatty := true; stdout_isatty := false; pending := ["i"%char] |}.

(** A controller that always shows the open fridge while the apple is
    held. *)
Definition fridge_controller (c : unit) (a : command) : result (unit * @event unit) :=
  Ok (c, {| ev_frame := None; instance_segmentation_frame := None;
            class_segmentation_frame := None; depth_frame := None;
            ev_metadata := fridge_md |}).

Definition typing (keys : string) : terminal :=
  {| stdin_isatty := true; stdout_isatty := true;
     pending := list_ascii_of_string keys |}.

Definition fridge_session (keys : string) : list (@effect unit) * @ending unit :=
  interact (λ _, "()") id id id (λ _, "0.1") fridge_controller
    (init all_default_actions true "." false) tt no_flags (typing keys).

(** ** Vocabulary of the further properties *)

(** The actions that are offered only while an item is held. *)
Definition hand_actions : list string :=
  "PutObject" :: hand_moves ++ ["DropHandObject"].

(** The actions of the dynamic table. *)
Definition object_actions : list string :=
  ["CloseObject"; "OpenObject"; "ToggleObjectOff"; "PickupObject"] ++ hand_actions.

(** [o['objectId']] of a descriptor the loop takes as visible. *)
Definition visible_id (o : pydict) : option pyval :=
  match o !! "visible" with
  | Some v => if truthy v then o !! "objectId" else None
  | None => None
  end.

(** The event with another list of descriptors. *)
Definition with_objects (md : metadata) (l : list pydict) : metadata :=
  {| objects := l; inventoryObjects := inventoryObjects md;
     agent_position := agent_position md |}.

(** The attributes the loop reads with [o[...]]. *)
Definition descriptor_keys : list string :=
  ["visible"; "objectId"; "openable"; "isopen"; "receptacle"; "pickupable"].

(** The descriptors the loop takes as visible. *)
Definition is_visible (o : pydict) : bool :=
  match o !! "visible" with
  | Some v => truthy v
  | None => false
  end.

(** [v['action'] in {a.name for a in default_actions}] *)
Definition permitted (acts : list DefaultActions) (v : command) : Prop :=
  ∃ a, a ∈ acts ∧ dict_get v "action" = Some (VStr (name a)).

(** What may be left in the buffer: nothing, or a string that is not a key
    and that some key starts with. *)
Definition pending_prefix (commands : table) (b : string) : Prop :=
  b = "" ∨ (commands !! b = None ∧
            ∃ k c, commands !! k = Some c ∧ String.prefix b k = true).

(** What the session may send: a permitted default action or, when object
    actions are enabled, one of the object actions. *)
Definition offered (acts : list DefaultActions) (object_actions_on : bool)
    (c : command) : Prop :=
  permitted acts c ∨
  (object_actions_on = true ∧
   ∃ a, dict_get c "action" = Some (VStr a) ∧ a ∈ object_actions).

(** The attributes a session leaves alone. *)
Definition same_configuration (self self' : prompt) : Prop :=
  default_actions self' = default_actions self ∧
  has_object_actions self' = has_object_actions self ∧
  image_per_frame self' = image_per_frame self ∧
  image_dir self' = image_dir self ∧
  default_interact_commands self' = default_interact_commands self.

(** The file names of the five channels, in the order of [frame_writes]. *)
Definition channel_names : list string :=
  ["color"; "instance_segmentation"; "class_segmentation"; "depth"; "depth_raw"].

(** The identifiers of the descriptors and of the held item are strings. *)
Definition ids_are_strings (md : metadata) : Prop :=
  ∀ o v, o ∈ (objects md ++ take 1 (inventoryObjects md))%list →
         o !! "objectId" = Some v → ∃ s, v = VStr s.

(** The calls of [add_command] the loop body makes for one descriptor, as a
    list: l. 122-126, *)
Definition openable_calls (o : pydict) : result (list (string * command)) :=
  openable ← getitem o "openable";
  if truthy openable then
    isopen ← getitem o "isopen";
    oid ← getitem o "objectId";
    Ok [(if truthy isopen then "CloseObject" else "OpenObject", [("objectId", oid)])]
  else Ok [].

(** l. 127-128, *)
Definition toggleable_calls (o : pydict) : result (list (string * command)) :=
  match o !! "toggleable" with
  | Some t =>
      if truthy t then
        oid ← getitem o "objectId";
        Ok [("ToggleObjectOff", [("objectId", oid)])]
      else Ok []
  | None => Ok []
  end.

(** l. 133-140, *)
Definition put_calls (inv oid : pyval) : list (string * command) :=
  [ ("PutObject", [("objectId", inv); ("receptacleObjectId", oid)]);
    ("MoveHandAhead", [("moveMagnitude", VFloat float_0_1)]);
    ("MoveHandBack", [("moveMagnitude", VFloat float_0_1)]);
    ("MoveHandRight", [("moveMagnitude", VFloat float_0_1)]);
    ("MoveHandLeft", [("moveMagnitude", VFloat float_0_1)]);
    ("MoveHandUp", [("moveMagnitude", VFloat float_0_1)]);
    ("MoveHandDown", [("moveMagnitude", VFloat float_0_1)]);
    ("DropHandObject", []) ].

(** l. 130-143, *)
Definition inventory_calls (md : metadata) (o : pydict)
    : result (list (string * command)) :=
  match inventoryObjects md with
  | first :: _ =>
      inventoryObjectId ← getitem first "objectId";
      put ← put_condition o inventoryObjectId;
      if put : bool then
        oid ← getitem o "objectId";
        Ok (put_calls inventoryObjectId oid)
      else Ok []
  | [] =>
      pickupable ← getitem o "pickupable";
      if truthy pickupable then
        oid ← getitem o "objectId";
        Ok [("PickupObject", [("objectId", oid)])]
      else Ok []
  end.

(** and l. 120-143 together. *)
Definition object_calls (md : metadata) (o : pydict)
    : result (list (string * command)) :=
  visible ← getitem o "visible";
  if truthy visible then
    oid ← getitem o "objectId";
    c1 ← openable_calls o;
    c2 ← toggleable_calls o;
    c3 ← inventory_calls md o;
    Ok (c1 ++ c2 ++ c3)%list
  else Ok [].

(** The calls for the descriptors of an event, in the order of its list. *)
Fixpoint event_calls (md : metadata) (l : list pydict)
    : result (list (string * command)) :=
  match l with
  | [] => Ok []
  | o :: l' =>
      c ← object_calls md o;
      cs ← event_calls md l';
      Ok (c ++ cs)%list
  end.

(** The closed box, out of sight, next to the fridge. *)
Definition hidden_box : pydict := <["visible" := VBool false]> closed_box.

Definition hidden_md : metadata :=
  {| objects := [hidden_box; fridge]; inventoryObjects := [apple];
     agent_position := "" |}.

(** An event with an empty descriptor. *)
Definition broken_md : metadata :=
  {| objects := [∅]; inventoryObjects := []; agent_position := "" |}.

(** The closed box with a number for its identifier. *)
Definition numbered_box : pydict := <["objectId" := VInt 7]> closed_box.

Definition numbered_md : metadata :=
  {| objects := [numbered_box]; inventoryObjects := []; agent_position := "" |}.

Definition numbered_state : enum_state :=
  {| visible_objects := [VInt 7];
     cmds := register fresh_slots
               [("OpenObject", [("objectId", VInt 7)]);
                ("PickupObject", [("objectId", VInt 7)])] |}.

(** An event that carries a color frame only. *)
Definition color_event : @event unit :=
  {| ev_frame := Some tt; instance_segmentation_frame := None;
     class_segmentation_frame := None; depth_frame := None;
     ev_metadata := box_md |}.

Definition put_apple : command :=
  [("action", VStr "PutObject"); ("objectId", VStr "Apple|1");
   ("receptacleObjectId", VStr "Fridge|1")].

Definition close_fridge : command :=
  [("action", VStr "CloseObject"); ("objectId", VStr "Fridge|1")].

(** * Properties *)

(** ** Reading descriptors *)

Lemma attr_Some o k b :
  attr o k = Some b → ∃ v, o !! k = Some v ∧ truthy v = b.
Proof.
  unfold attr. destruct (o !! k) as [v|]; simpl; [|discriminate].
  intros [= <-]. by exists v.
Qed.

Lemma getitem_Some o k v : o !! k = Some v → getitem o k = Ok v.
Proof. unfold getitem. by intros ->. Qed.

Lemma bind_Ok {A B} (f : A → result B) a : (Ok a ≫= f) = f a.
Proof. reflexivity. Qed.

(** Replace the lookups the hypotheses determine and run the code. *)
Ltac read_attr H :=
  let v := fresh "v" in
  let Hv := fresh "Hv" in
  let Ht := fresh "Ht" in
  apply attr_Some in H as (v & Hv & Ht).

Ltac run_getitems :=
  repeat match goal with
    | H : ?o !! ?k = Some ?v |- context [getitem ?o ?k] =>
        rewrite (getitem_Some o k v H)
    | H : ?o !! ?k = Some ?v |- context [?o !! ?k] => rewrite H
    | H : ?o !! ?k = None |- context [?o !! ?k] => rewrite H
    | H : truthy ?v = _ |- context [truthy ?v] => rewrite H
    | |- context [Ok ?a ≫= ?f] => rewrite (bind_Ok f a)
    end; cbn beta iota.

(** ** [add_command] *)

Lemma add_command_room cc action args :
  counter cc < 15 →
  add_command cc action args =
    {| new_commands :=
         <[pretty (counter cc) := dict_update [("action", VStr action)] args]>
           (new_commands cc);
       counter := counter cc + 1 |}.
Proof. intros H. unfold add_command. by rewrite (proj2 (Z.ltb_lt _ _) H). Qed.

Lemma add_command_full cc action args :
  15 ≤ counter cc → add_command cc action args = cc.
Proof. intros H. unfold add_command. by rewrite (proj2 (Z.ltb_ge _ _) H). Qed.

Lemma grows_trans P cc1 cc2 cc3 :
  grows P cc1 cc2 → grows P cc2 cc3 → grows P cc1 cc3.
Proof. intros H12 H23. induction H23; [done | constructor; auto]. Qed.

Lemma grows_weaken (P Q : command → Prop) cc cc' :
  (∀ com, P com → Q com) → grows P cc cc' → grows Q cc cc'.
Proof. intros HPQ H. induction H; constructor; auto. Qed.

Lemma grows_one (P : command → Prop) cc action args :
  P (dict_update [("action", VStr action)] args) →
  grows P cc (add_command cc action args).
Proof. intros. constructor; [constructor | done]. Qed.

(** Every entry of the grown table is an old one or satisfies [P]. *)
Lemma grows_lookup P cc cc' k com :
  grows P cc cc' →
  new_commands cc' !! k = Some com →
  new_commands cc !! k = Some com ∨ P com.
Proof.
  induction 1 as [|cc cc' action args _ IH HP]; [by left|].
  unfold add_command. destruct (counter cc' <? 15); [|done]. simpl.
  rewrite lookup_insert. case_decide; [|done].
  intros [= <-]. by right.
Qed.

Lemma fresh_slots_ok : slots_ok fresh_slots.
Proof.
  split; simpl.
  - lia.
  - intros k. rewrite lookup_empty. split; [by intros [? ?] | intros (n & ? & _); lia].
  - by rewrite map_size_empty.
Qed.

Lemma add_command_ok cc action args :
  slots_ok cc → slots_ok (add_command cc action args).
Proof.
  intros [Hr Hk Hs]. unfold add_command.
  destruct (Z.ltb_spec (counter cc) 15) as [Hlt|]; [|by split].
  split; simpl.
  - lia.
  - intros k. rewrite lookup_insert. case_decide as Hkey.
    + split; [|by eauto]. intros _. exists (counter cc). split; [lia | done].
    + rewrite Hk. split; intros (n & Hn & ->); exists n; split; try done; [lia|].
      destruct (decide (n = counter cc)) as [->|]; [done | lia].
  - rewrite map_size_insert_None, Hs; [lia|].
    apply eq_None_not_Some. rewrite Hk. intros (n & Hn & Heq).
    apply (inj pretty) in Heq. lia.
Qed.

Lemma grows_ok P cc cc' : grows P cc cc' → slots_ok cc → slots_ok cc'.
Proof. induction 1; auto using add_command_ok. Qed.

(** ** What a descriptor can contribute *)

Lemma openable_branch_grows md o cc cc' :
  openable_branch o cc = Ok cc' → grows (affordance md o) cc cc'.
Proof.
  unfold openable_branch, getitem.
  destruct (o !! "openable") as [op|]; simpl; [|discriminate].
  destruct (truthy op); [|intros [= <-]; constructor].
  destruct (o !! "isopen") as [io|] eqn:Hio; simpl; [|discriminate].
  destruct (truthy io) eqn:Ht;
    (destruct (o !! "objectId") as [oid|] eqn:Hoid; simpl; [|discriminate]);
    intros [= <-]; apply grows_one; simpl; econstructor; eauto.
Qed.

Lemma toggleable_branch_grows md o cc cc' :
  toggleable_branch o cc = Ok cc' → grows (affordance md o) cc cc'.
Proof.
  unfold toggleable_branch, getitem.
  destruct (o !! "toggleable") as [t|] eqn:Htog; [|intros [= <-]; constructor].
  destruct (truthy t) eqn:Ht; [|intros [= <-]; constructor].
  destruct (o !! "objectId") as [oid|] eqn:Hoid; simpl; [|discriminate].
  intros [= <-]. apply grows_one. simpl. econstructor; eauto.
Qed.

Lemma put_condition_true o inv :
  put_condition o inv = Ok true →
  ∃ oid, o !! "objectId" = Some oid ∧ py_eq inv oid = false.
Proof.
  unfold put_condition, getitem.
  destruct (o !! "receptacle") as [r|]; simpl; [|discriminate].
  destruct (truthy r); [|discriminate].
  destruct (o !! "openable") as [op|]; simpl; [|discriminate].
  assert (match o !! "objectId" with
          | Some v => Ok v
          | None => Raise (KeyError "objectId")
          end ≫= (λ oid, Ok (negb (py_eq inv oid))) = Ok true →
          ∃ oid, o !! "objectId" = Some oid ∧ py_eq inv oid = false) as Hacc.
  { destruct (o !! "objectId") as [oid|]; simpl; [|discriminate].
    intros [= H]. exists oid. split; [done|]. by apply negb_true_iff. }
  destruct (truthy op); simpl; [|done].
  destruct (o !! "isopen") as [io|]; simpl; [|discriminate].
  destruct (truthy io); [done | discriminate].
Qed.

Lemma put_commands_grows md o first rest inv cc cc' :
  inventoryObjects md = first :: rest →
  first !! "objectId" = Some inv →
  (∃ oid, o !! "objectId" = Some oid ∧ py_eq inv oid = false) →
  put_commands o inv cc = Ok cc' → grows (affordance md o) cc cc'.
Proof.
  intros Hinv Hfirst (oid & Hoid & Hne). unfold put_commands.
  rewrite (getitem_Some _ _ _ Hoid). simpl. intros [= <-].
  repeat (apply grows_add; [|simpl]); [constructor|..].
  - by eapply aff_put.
  - eapply aff_hand; [done|]. unfold hand_moves. set_solver.
  - eapply aff_hand; [done|]. unfold hand_moves. set_solver.
  - eapply aff_hand; [done|]. unfold hand_moves. set_solver.
  - eapply aff_hand; [done|]. unfold hand_moves. set_solver.
  - eapply aff_hand; [done|]. unfold hand_moves. set_solver.
  - eapply aff_hand; [done|]. unfold hand_moves. set_solver.
  - by eapply aff_drop.
Qed.

Lemma inventory_branch_grows md o cc cc' :
  inventory_branch md o cc = Ok cc' → grows (affordance md o) cc cc'.
Proof.
  unfold inventory_branch.
  destruct (inventoryObjects md) as [|first rest] eqn:Hinv.
  - unfold getitem.
    destruct (o !! "pickupable") as [p|]; simpl; [|discriminate].
    destruct (truthy p); [|intros [= <-]; constructor].
    destruct (o !! "objectId") as [oid|] eqn:Hoid; simpl; [|discriminate].
    intros [= <-]. apply grows_one. simpl. by constructor.
  - unfold getitem at 1.
    destruct (first !! "objectId") as [inv|] eqn:Hfirst; simpl; [|discriminate].
    destruct (put_condition o inv) as [[|]|] eqn:Hput; simpl; try discriminate.
    + apply put_condition_true in Hput. by eapply put_commands_grows.
    + intros [= <-]. constructor.
Qed.

Lemma enumerate_object_grows md st o st' :
  enumerate_object md st o = Ok st' →
  grows (affordance md o) (cmds st) (cmds st').
Proof.
  unfold enumerate_object.
  destruct (getitem o "visible") as [vis|]; simpl; [|discriminate].
  destruct (truthy vis); [|intros [= <-]; constructor].
  destruct (getitem o "objectId") as [oid|]; simpl; [|discriminate].
  destruct (openable_branch o (cmds st)) as [cc1|] eqn:H1; simpl; [|discriminate].
  destruct (toggleable_branch o cc1) as [cc2|] eqn:H2; simpl; [|discriminate].
  destruct (inventory_branch md o cc2) as [cc3|] eqn:H3; simpl; [|discriminate].
  intros [= <-]. simpl.
  eapply grows_trans; [by eapply openable_branch_grows|].
  eapply grows_trans; [by eapply toggleable_branch_grows|].
  by eapply inventory_branch_grows.
Qed.

Lemma for_each_grows md (l : list pydict) st st' :
  (∀ o, o ∈ l → o ∈ objects md) →
  for_each (enumerate_object md) st l = Ok st' →
  grows (event_affordance md) (cmds st) (cmds st').
Proof.
  revert st. induction l as [|o l IH]; intros st Hl; simpl.
  - intros [= <-]. constructor.
  - destruct (enumerate_object md st o) as [st1|] eqn:H1; simpl; [|discriminate].
    intros Hrest. eapply grows_trans.
    + eapply grows_weaken; [|by eapply enumerate_object_grows].
      intros com Hcom. exists o. split; [apply Hl; left | done].
    + apply IH; [|done]. intros o' Ho'. apply Hl. by right.
Qed.

Lemma enumerate_affordances_grows flag md st :
  enumerate_affordances flag md = Ok st →
  grows (event_affordance md) fresh_slots (cmds st).
Proof.
  unfold enumerate_affordances. destruct flag.
  - intros H. by apply for_each_grows in H.
  - intros [= <-]. constructor.
Qed.

(** ** Calls of [add_command] in sequence *)

Lemma register_counter cc calls :
  counter cc + Z.of_nat (length calls) ≤ 15 →
  counter (register cc calls) = counter cc + Z.of_nat (length calls).
Proof.
  revert cc. induction calls as [|call calls IH]; intros cc Hroom; simpl in *.
  - lia.
  - unfold register in *. simpl.
    rewrite IH; rewrite add_command_room by lia; simpl; lia.
Qed.

Lemma register_lookup_other cc calls k :
  (∀ n, counter cc ≤ n → k ≠ pretty n) →
  new_commands (register cc calls) !! k = new_commands cc !! k.
Proof.
  revert cc. induction calls as [|call calls IH]; intros cc Hk; [done|].
  unfold register in *. simpl. rewrite IH.
  - unfold add_command. destruct (counter cc <? 15); [|done]. simpl.
    apply lookup_insert_ne. intros Heq. by apply (Hk (counter cc)).
  - intros n Hn. apply Hk. unfold add_command in Hn.
    destruct (counter cc <? 15); simpl in Hn; lia.
Qed.

Lemma register_lookup cc calls i call :
  counter cc + Z.of_nat (length calls) ≤ 15 →
  calls !! i = Some call →
  new_commands (register cc calls) !! pretty (counter cc + Z.of_nat i)
    = Some (built call).
Proof.
  revert cc i. induction calls as [|c0 calls IH]; intros cc i Hroom Hi; [done|].
  simpl in Hroom. destruct i as [|i]; simpl in Hi.
  - injection Hi as ->. change (register cc (call :: calls))
      with (register (add_command cc call.1 call.2) calls).
    rewrite register_lookup_other.
    + rewrite add_command_room by lia. simpl.
      replace (counter cc + Z.of_nat 0) with (counter cc) by lia.
      apply lookup_insert_eq.
    + intros n Hn Heq. apply (inj pretty) in Heq.
      rewrite add_command_room in Hn by lia. simpl in Hn. lia.
  - change (register cc (c0 :: calls))
      with (register (add_command cc c0.1 c0.2) calls).
    replace (counter cc + Z.of_nat (S i))
      with (counter (add_command cc c0.1 c0.2) + Z.of_nat i).
    + apply IH; [|done]. rewrite add_command_room by lia. simpl. lia.
    + rewrite add_command_room by lia. simpl. lia.
Qed.

(** ** The cap on the dynamic table *)

Lemma enumerate_object_total md st o :
  complete o →
  match inventoryObjects md with
  | first :: _ => is_Some (first !! "objectId")
  | [] => True
  end →
  ∃ st', enumerate_object md st o = Ok st'.
Proof.
  intros Hc Hinv.
  destruct (Hc "visible") as [vis Hvis]; [set_solver|].
  destruct (Hc "objectId") as [oid Hoid]; [set_solver|].
  destruct (Hc "openable") as [op Hop]; [set_solver|].
  destruct (Hc "isopen") as [io Hio]; [set_solver|].
  destruct (Hc "receptacle") as [rc Hrc]; [set_solver|].
  destruct (Hc "pickupable") as [pk Hpk]; [set_solver|].
  unfold enumerate_object, openable_branch, toggleable_branch, inventory_branch,
    put_condition, put_commands, getitem.
  rewrite Hvis, Hoid, Hop, Hio, Hrc, Hpk. simpl.
  destruct (truthy vis); [|by eauto]. simpl.
  destruct (inventoryObjects md) as [|first rest].
  - destruct (truthy op), (truthy io), (o !! "toggleable") as [t|];
      try destruct (truthy t); simpl; destruct (truthy pk); simpl; eauto.
  - destruct Hinv as [inv ->]. simpl.
    destruct (truthy op), (truthy io), (o !! "toggleable") as [t|];
      try destruct (truthy t); simpl; destruct (truthy rc); simpl;
      try destruct (py_eq inv oid); simpl; eauto.
Qed.

Lemma enumerate_affordances_total flag md :
  well_formed md → ∃ st, enumerate_affordances flag md = Ok st.
Proof.
  intros [Hobjs Hinv]. unfold enumerate_affordances.
  destruct flag; [|by eauto].
  generalize {| visible_objects := []; cmds := fresh_slots |}.
  induction Hobjs as [|o l Ho _ IH]; intros st; simpl; [by eauto|].
  destruct (enumerate_object_total md st o Ho Hinv) as [st1 ->]. simpl. apply IH.
Qed.

Lemma enumerate_affordances_ok flag md st :
  enumerate_affordances flag md = Ok st → slots_ok (cmds st).
Proof.
  intros H. eapply grows_ok; [by eapply enumerate_affordances_grows|].
  apply fresh_slots_ok.
Qed.

Lemma dynamic_slots_numbered flag md st k :
  enumerate_affordances flag md = Ok st →
  is_Some (new_commands (cmds st) !! k) →
  ∃ n, 1 ≤ n ≤ 14 ∧ k = pretty n.
Proof.
  intros H Hsome. apply enumerate_affordances_ok in H as [Hr Hk Hs].
  apply Hk in Hsome as (n & Hn & ->). exists n. split; [lia | done].
Qed.

(** C7. Whatever the event holds, the dynamic table a step generates has at
    most 14 entries, each keyed by the decimal string of a number between 1
    and 14; and once the counter stands at 15, [add_command] returns its state
    unchanged: the affordance is dropped and nothing is raised. *)
Theorem dynamic_table_capped flag md st :
  enumerate_affordances flag md = Ok st →
  (size (new_commands (cmds st)) ≤ 14)%nat ∧
  (∀ k, is_Some (new_commands (cmds st) !! k) → ∃ n, 1 ≤ n ≤ 14 ∧ k = pretty n) ∧
  (∀ cc action args, 15 ≤ counter cc → add_command cc action args = cc).
Proof.
  intros H. split; [|split].
  - apply enumerate_affordances_ok in H as [Hr _ Hs]. lia.
  - intros k. by apply (dynamic_slots_numbered flag md).
  - intros cc action args. apply add_command_full.
Qed.

(** ** Single descriptors *)

(** C1, as stated, fails: for the closed pickupable box with nothing held
    the enumeration registers OpenObject in slot 1 and PickupObject in
    slot 2, not OpenObject alone. *)
Lemma closed_pickupable_counterexample :
  inventoryObjects box_md = [] ∧
  attr closed_box "visible" = Some true ∧
  attr closed_box "openable" = Some true ∧
  attr closed_box "isopen" = Some false ∧
  attr closed_box "toggleable" = Some false ∧
  attr closed_box "receptacle" = Some false ∧
  attr closed_box "pickupable" = Some true ∧
  ∃ st', enumerate_object box_md start closed_box = Ok st' ∧
    cmds st' ≠ add_command fresh_slots "OpenObject" [("objectId", VStr "Box|1")] ∧
    new_commands (cmds st') !! "1" =
      Some [("action", VStr "OpenObject"); ("objectId", VStr "Box|1")] ∧
    new_commands (cmds st') !! "2" =
      Some [("action", VStr "PickupObject"); ("objectId", VStr "Box|1")].
Proof.
  repeat (split; [reflexivity|]).
  eexists. split; [reflexivity|]. split; [|split; reflexivity].
  intros H. apply (f_equal counter) in H. vm_compute in H. discriminate.
Qed.

(** C1, amended. For a visible descriptor that is openable and closed, not
    toggleable (the attribute false or missing) and pickupable, with an empty
    inventory, the enumeration calls [add_command] exactly twice: OpenObject,
    then PickupObject, both targeting the object.  (With an empty inventory
    the receptacle attribute is not read.)  While two slots are free these
    are the entries numbered [counter] and [counter + 1]. *)
Theorem closed_pickupable_object md st o oid :
  inventoryObjects md = [] →
  o !! "objectId" = Some oid →
  attr o "visible" = Some true →
  attr o "openable" = Some true →
  attr o "isopen" = Some false →
  attr o "toggleable" ≠ Some true →
  attr o "pickupable" = Some true →
  enumerate_object md st o =
    Ok {| visible_objects := visible_objects st ++ [oid];
          cmds := register (cmds st)
                    [("OpenObject", [("objectId", oid)]);
                     ("PickupObject", [("objectId", oid)])] |} ∧
  (counter (cmds st) + 2 ≤ 15 →
   new_commands
     (register (cmds st)
        [("OpenObject", [("objectId", oid)]);
         ("PickupObject", [("objectId", oid)])]) =
   <[pretty (counter (cmds st) + 1) :=
       [("action", VStr "PickupObject"); ("objectId", oid)]]>
     (<[pretty (counter (cmds st)) :=
          [("action", VStr "OpenObject"); ("objectId", oid)]]>
        (new_commands (cmds st)))).
Proof.
  intros Hinv Hoid Hvis Hop Hio Htog Hpk.
  read_attr Hvis. read_attr Hop. read_attr Hio. read_attr Hpk.
  split.
  - unfold enumerate_object, openable_branch, toggleable_branch, inventory_branch.
    rewrite Hinv. run_getitems.
    unfold attr in Htog. destruct (o !! "toggleable") as [t|]; simpl in *.
    + destruct (truthy t); [done|]. by run_getitems.
    + by run_getitems.
  - intros Hroom. unfold register. simpl.
    rewrite (add_command_room (cmds st)) by lia.
    rewrite add_command_room by (simpl; lia). done.
Qed.

(** Witness of C1 (amended): the closed box. *)
Lemma closed_pickupable_object_witness :
  inventoryObjects box_md = [] ∧
  closed_box !! "objectId" = Some (VStr "Box|1") ∧
  enumerate_object box_md start closed_box =
    Ok {| visible_objects := [VStr "Box|1"];
          cmds := register fresh_slots
                    [("OpenObject", [("objectId", VStr "Box|1")]);
                     ("PickupObject", [("objectId", VStr "Box|1")])] |}.
Proof.
  split; [reflexivity|]. split; [reflexivity|].
  apply (closed_pickupable_object box_md start closed_box (VStr "Box|1"));
    solve [reflexivity | vm_compute; discriminate].
Defined.

Lemma enumerate_open_receptacle md st o first rest inv oid :
  inventoryObjects md = first :: rest →
  first !! "objectId" = Some inv →
  o !! "objectId" = Some oid →
  py_eq inv oid = false →
  attr o "visible" = Some true →
  attr o "openable" = Some true →
  attr o "isopen" = Some true →
  attr o "toggleable" = Some true →
  attr o "receptacle" = Some true →
  enumerate_object md st o =
    Ok {| visible_objects := visible_objects st ++ [oid];
          cmds := register (cmds st) (open_receptacle_calls inv oid) |}.
Proof.
  intros Hinv Hfirst Hoid Hne Hvis Hop Hio Htog Hrc.
  read_attr Hvis. read_attr Hop. read_attr Hio. read_attr Htog. read_attr Hrc.
  unfold enumerate_object, openable_branch, toggleable_branch, inventory_branch,
    put_condition, put_commands.
  rewrite Hinv. run_getitems. simpl. run_getitems. by rewrite Hne.
Qed.

(** C8. For a visible descriptor that is openable and open, toggleable and
    a receptacle, while the inventory is non-empty and its first item is not
    that object, the enumeration calls [add_command] with CloseObject,
    ToggleObjectOff, PutObject, MoveHandAhead, MoveHandBack, MoveHandRight,
    MoveHandLeft, MoveHandUp, MoveHandDown, DropHandObject, in this order;
    when ten slots are free, the i-th of them is the entry numbered
    [counter + i].  (The pickupable attribute is not read.) *)
Theorem open_receptacle_commands md st o first rest inv oid :
  inventoryObjects md = first :: rest →
  first !! "objectId" = Some inv →
  o !! "objectId" = Some oid →
  py_eq inv oid = false →
  attr o "visible" = Some true →
  attr o "openable" = Some true →
  attr o "isopen" = Some true →
  attr o "toggleable" = Some true →
  attr o "receptacle" = Some true →
  counter (cmds st) + 10 ≤ 15 →
  ∃ st',
    enumerate_object md st o = Ok st' ∧
    cmds st' = register (cmds st) (open_receptacle_calls inv oid) ∧
    counter (cmds st') = counter (cmds st) + 10 ∧
    (∀ i call, open_receptacle_calls inv oid !! i = Some call →
       new_commands (cmds st') !! pretty (counter (cmds st) + Z.of_nat i)
         = Some (built call)) ∧
    (∀ k, (∀ n, counter (cmds st) ≤ n → k ≠ pretty n) →
       new_commands (cmds st') !! k = new_commands (cmds st) !! k).
Proof.
  intros Hinv Hfirst Hoid Hne Hvis Hop Hio Htog Hrc Hroom.
  eexists. split; [by eapply enumerate_open_receptacle|]. cbn [cmds].
  split; [done|]. split; [by rewrite register_counter|]. split.
  - intros i call Hi. by apply register_lookup.
  - intros k Hk. by apply register_lookup_other.
Qed.

(** Witness of C8: the fridge, from the fresh slots. *)
Lemma open_receptacle_commands_witness :
  inventoryObjects fridge_md = [apple] ∧
  apple !! "objectId" = Some (VStr "Apple|1") ∧
  fridge !! "objectId" = Some (VStr "Fridge|1") ∧
  ∃ st',
    enumerate_object fridge_md start fridge = Ok st' ∧
    cmds st' = register fresh_slots
                 (open_receptacle_calls (VStr "Apple|1") (VStr "Fridge|1")) ∧
    counter (cmds st') = 11.
Proof.
  repeat (split; [reflexivity|]).
  destruct (open_receptacle_commands fridge_md start fridge apple []
              (VStr "Apple|1") (VStr "Fridge|1"))
    as (st' & Hrun & Hcmds & Hcount & _); try reflexivity.
  - vm_compute. discriminate.
  - exists st'. auto.
Defined.

(** ** The held item *)

Lemma for_each_ext {A S : Type} (f g : S → A → result S) s l :
  (∀ s a, f s a = g s a) → for_each f s l = for_each g s l.
Proof.
  intros Hfg. revert s. induction l as [|a l IH]; intros s; simpl; [done|].
  rewrite Hfg. destruct (g s a); simpl; [apply IH | done].
Qed.

Lemma hand_moves_action a :
  a ∈ hand_moves → a ≠ "PutObject" ∧ a ≠ "ToggleObjectOff".
Proof.
  unfold hand_moves. rewrite !elem_of_cons, elem_of_nil.
  intuition (subst; discriminate).
Qed.

Lemma affordance_put md o first rest inv com :
  inventoryObjects md = first :: rest →
  first !! "objectId" = Some inv →
  affordance md o com →
  dict_get com "action" = Some (VStr "PutObject") →
  dict_get com "objectId" = Some inv.
Proof.
  intros Hinv Hfirst Haff.
  destruct Haff as [| | |first' rest' inv' oid Hinv' Hfirst' _ _
                    |first' rest' a _ Ha| |]; simpl; try discriminate.
  - rewrite Hinv in Hinv'. injection Hinv' as <- <-.
    rewrite Hfirst in Hfirst'. by injection Hfirst' as <-.
  - intros [= ->]. by apply hand_moves_action in Ha as [? _].
Qed.

(** C9. With a non-empty inventory, every PutObject entry of the dynamic
    table a step generates names the first inventory item as the object to
    put, and the whole enumeration (so also the test that a receptacle is not
    the held item) reads nothing of the inventory but that first item: dropping
    the items behind it leaves the result unchanged. *)
Theorem put_object_names_first_item flag md first rest inv st :
  inventoryObjects md = first :: rest →
  first !! "objectId" = Some inv →
  enumerate_affordances flag md = Ok st →
  (∀ k com, new_commands (cmds st) !! k = Some com →
     dict_get com "action" = Some (VStr "PutObject") →
     dict_get com "objectId" = Some inv) ∧
  enumerate_affordances flag
    {| objects := objects md; inventoryObjects := [first];
       agent_position := agent_position md |} = Ok st ∧
  (∀ o, put_condition o inv = Ok true →
     ∃ oid, o !! "objectId" = Some oid ∧ py_eq inv oid = false).
Proof.
  intros Hinv Hfirst Hrun. split; [|split].
  - intros k com Hk Hact.
    apply enumerate_affordances_grows in Hrun.
    destruct (grows_lookup _ _ _ _ _ Hrun Hk) as [Hold | (o & _ & Haff)].
    + simpl in Hold. by rewrite lookup_empty in Hold.
    + by eapply affordance_put.
  - rewrite <- Hrun. unfold enumerate_affordances. destruct flag; [|done].
    simpl. apply for_each_ext. intros s o.
    unfold enumerate_object, inventory_branch. simpl. by rewrite Hinv.
  - intros o. apply put_condition_true.
Qed.

(** Witness of C9: two fridges, three items held. *)
Lemma put_object_names_first_item_witness :
  inventoryObjects pantry_md = apple :: [bread; bread] ∧
  apple !! "objectId" = Some (VStr "Apple|1") ∧
  enumerate_affordances true pantry_md = Ok pantry_state ∧
  (∀ k com, new_commands (cmds pantry_state) !! k = Some com →
     dict_get com "action" = Some (VStr "PutObject") →
     dict_get com "objectId" = Some (VStr "Apple|1")).
Proof.
  assert (enumerate_affordances true pantry_md = Ok pantry_state) as Hrun
    by (vm_compute; reflexivity).
  split; [reflexivity|]. split; [reflexivity|]. split; [exact Hrun|].
  apply (put_object_names_first_item true pantry_md apple [bread; bread]
           (VStr "Apple|1") pantry_state); [reflexivity | reflexivity | exact Hrun].
Defined.

(** Witness of C7: twenty affordances qualify, fourteen are kept. *)
Lemma dynamic_table_capped_witness :
  enumerate_affordances true pantry_md = Ok pantry_state ∧
  (size (new_commands (cmds pantry_state)) ≤ 14)%nat ∧
  counter (cmds pantry_state) = 15.
Proof.
  assert (enumerate_affordances true pantry_md = Ok pantry_state) as Hrun
    by (vm_compute; reflexivity).
  split; [exact Hrun|]. split; [|reflexivity].
  apply (dynamic_table_capped true pantry_md pantry_state Hrun).
Defined.

(** ** A descriptor without the toggleable attribute *)

Lemma getitem_insert_ne (o : pydict) k k' v :
  k' ≠ k → getitem (<[k' := v]> o) k = getitem o k.
Proof. intros Hne. unfold getitem. by rewrite lookup_insert_ne. Qed.

Lemma toggleable_branch_missing o cc :
  o !! "toggleable" = None → toggleable_branch o cc = Ok cc.
Proof. unfold toggleable_branch. by intros ->. Qed.

Lemma affordance_toggle md o com :
  o !! "toggleable" = None →
  affordance md o com →
  dict_get com "action" ≠ Some (VStr "ToggleObjectOff").
Proof.
  intros Hmissing Haff.
  destruct Haff as [| |oid t _ Ht _| |first rest a _ Ha| |]; simpl; try discriminate.
  - by rewrite Hmissing in Ht.
  - intros [= ->]. by apply hand_moves_action in Ha as [_ ?].
Qed.

(** C10. A descriptor without the toggleable attribute is handled as a
    descriptor whose attribute is false: the toggle step returns the slots
    unchanged and raises nothing, the enumeration of the descriptor gives the
    result it gives with [toggleable = False] (the other branches run as
    usual), and no ToggleObjectOff entry is added for it. *)
Theorem missing_toggleable md st o :
  o !! "toggleable" = None →
  (∀ cc, toggleable_branch o cc = Ok cc) ∧
  enumerate_object md st o =
    enumerate_object md st (<["toggleable" := VBool false]> o) ∧
  (∀ st' k com,
     enumerate_object md st o = Ok st' →
     new_commands (cmds st') !! k = Some com →
     dict_get com "action" = Some (VStr "ToggleObjectOff") →
     new_commands (cmds st) !! k = Some com).
Proof.
  intros Hmissing. split; [|split].
  - intros cc. by apply toggleable_branch_missing.
  - unfold enumerate_object, openable_branch, inventory_branch, put_condition,
      put_commands.
    rewrite !getitem_insert_ne by done.
    unfold toggleable_branch. rewrite Hmissing, lookup_insert_eq. done.
  - intros st' k com Hrun Hk Hact.
    apply enumerate_object_grows in Hrun.
    destruct (grows_lookup _ _ _ _ _ Hrun Hk) as [Hold | Haff]; [done|].
    by apply affordance_toggle in Haff.
Qed.

(** Witness of C10: the lamp. *)
Lemma missing_toggleable_witness :
  bare_lamp !! "toggleable" = None ∧
  toggleable_branch bare_lamp fresh_slots = Ok fresh_slots ∧
  enumerate_object lamp_md start bare_lamp =
    enumerate_object lamp_md start (<["toggleable" := VBool false]> bare_lamp).
Proof.
  split; [reflexivity|].
  destruct (missing_toggleable lamp_md start bare_lamp) as (Htog & Hsame & _);
    [reflexivity|].
  split; [apply Htog | exact Hsame].
Defined.

(** ** The key-sequence interpreter *)

Lemma string_app_cons a (s1 s2 : string) :
  String a s1 +:+ s2 = String a (s1 +:+ s2).
Proof. reflexivity. Qed.

Lemma string_app_nil_l (s : string) : "" +:+ s = s.
Proof. reflexivity. Qed.

Lemma string_app_assoc (s1 s2 s3 : string) :
  (s1 +:+ s2) +:+ s3 = s1 +:+ (s2 +:+ s3).
Proof.
  induction s1 as [|a s1 IH]; [done|].
  by rewrite !string_app_cons, IH.
Qed.

Lemma string_app_nil_r (s : string) : s +:+ "" = s.
Proof.
  induction s as [|a s IH]; [done|].
  by rewrite string_app_cons, IH.
Qed.

Lemma string_app_length (s1 s2 : string) :
  String.length (s1 +:+ s2) = (String.length s1 + String.length s2)%nat.
Proof.
  induction s1 as [|a s1 IH]; [done|].
  rewrite string_app_cons. simpl. by rewrite IH.
Qed.

Lemma prefix_app (p s : string) : String.prefix p (p +:+ s) = true.
Proof.
  induction p as [|a p IH]; [by destruct s|].
  rewrite string_app_cons. simpl. by destruct (ascii_dec a a).
Qed.

Lemma some_key_startswith_intro (commands : table) k c p s :
  commands !! k = Some c → k = p +:+ s → some_key_startswith commands p = true.
Proof.
  intros Hk ->. unfold some_key_startswith. apply existsb_exists.
  exists (p +:+ s, c). split; [|apply prefix_app].
  apply list_elem_of_In. by apply elem_of_map_to_list.
Qed.

(** A buffer of two or more characters is not a quit sequence. *)
Lemma long_buffer_no_quit (b : string) ch :
  b ≠ "" →
  ((b +:+ String ch "" =? "q")%string
   || (b +:+ String ch "" =? String ETX "")%string) = false.
Proof.
  intros Hb. apply orb_false_iff.
  split; apply String.eqb_neq; intros Heq;
    apply (f_equal String.length) in Heq; rewrite string_app_length in Heq;
    destruct b; simpl in Heq; first [congruence | lia].
Qed.

(** The interpreter on a key none of whose proper prefixes is a key or a
    quit sequence: the characters of the key yield its command, once, and
    leave the buffer empty. *)
Lemma feed_key_from (commands : table) k c s buf :
  commands !! k = Some c →
  (∀ p r, k = p +:+ r → p ≠ "" → r ≠ "" →
     commands !! p = None ∧ p ≠ "q" ∧ p ≠ String ETX "") →
  k ≠ "q" → k ≠ String ETX "" →
  k = buf +:+ s → s ≠ "" →
  feed commands buf (list_ascii_of_string s) = ([c], Some "").
Proof.
  intros Hk Hfree Hq Hetx. revert buf.
  induction s as [|ch s IH]; intros buf Hsplit Hs; [congruence|]. clear Hs.
  simpl. unfold interpret.
  assert (k = (buf +:+ String ch "") +:+ s) as Hsplit'
    by (by rewrite string_app_assoc).
  destruct s as [|ch' s].
  - rewrite string_app_nil_r in Hsplit'. rewrite <- Hsplit'.
    rewrite (proj2 (String.eqb_neq _ _) Hq), (proj2 (String.eqb_neq _ _) Hetx).
    simpl. by rewrite Hk.
  - destruct (Hfree _ _ Hsplit') as (Hnone & Hq' & Hetx'); [by destruct buf | done |].
    rewrite (proj2 (String.eqb_neq _ _) Hq'), (proj2 (String.eqb_neq _ _) Hetx').
    simpl. rewrite Hnone.
    rewrite (some_key_startswith_intro _ _ _ _ _ Hk Hsplit').
    by apply IH.
Qed.

Lemma feed_key (commands : table) k c :
  commands !! k = Some c →
  k ≠ "" → k ≠ "q" → k ≠ String ETX "" →
  (∀ p r, k = p +:+ r → p ≠ "" → r ≠ "" →
     commands !! p = None ∧ p ≠ "q" ∧ p ≠ String ETX "") →
  feed commands "" (list_ascii_of_string k) = ([c], Some "").
Proof. intros Hk Hne Hq Hetx Hfree. by apply (feed_key_from commands k c k ""). Qed.

(** ** Which keys can be typed *)

Lemma proper_prefixes_complete k p r :
  k = p +:+ r → p ≠ "" → r ≠ "" → p ∈ proper_prefixes k.
Proof.
  revert k. induction p as [|a p IH]; intros k -> Hp Hr; [done|].
  rewrite string_app_cons. destruct p as [|b p].
  - rewrite string_app_nil_l. destruct r; [done|]. simpl. by left.
  - rewrite string_app_cons.
    change (proper_prefixes (String a (String b (p +:+ r))))
      with (String a "" :: (String a <$> proper_prefixes (String b (p +:+ r)))).
    right. apply list_elem_of_fmap. exists (String b p). split; [done|].
    rewrite <- string_app_cons. by apply IH.
Qed.

Lemma default_keys acts flag dir per_frame k c :
  default_interact_commands (init acts flag dir per_frame) !! k = Some c →
  k ∈ static_keys.
Proof.
  simpl. intros Hk. apply elem_of_list_to_map_2 in Hk.
  apply list_elem_of_filter in Hk as [_ Hk].
  apply list_elem_of_fmap. by exists (k, c).
Qed.

Lemma slot_key n : 1 ≤ n ≤ 14 → pretty n ∈ slot_keys.
Proof.
  intros Hn. apply list_elem_of_fmap. exists (Z.to_nat n).
  split; [f_equal; lia | apply elem_of_seq; lia].
Qed.

Lemma active_table_keys acts flag dir per_frame flag' md st k c :
  enumerate_affordances flag' md = Ok st →
  active_table (default_interact_commands (init acts flag dir per_frame))
               (new_commands (cmds st)) !! k = Some c →
  k ∈ possible_keys.
Proof.
  intros Hrun Hk. unfold active_table in Hk. unfold possible_keys.
  apply elem_of_app.
  apply lookup_union_Some_raw in Hk as [Hk | [_ Hk]].
  - right. apply dynamic_slots_numbered with (k := k) in Hrun; [|by eauto].
    destruct Hrun as (n & Hn & ->). by apply slot_key.
  - left. by eapply default_keys.
Qed.

Lemma selectable_feed (tb : table) k c :
  (∀ k' c', tb !! k' = Some c' → k' ∈ possible_keys) →
  tb !! k = Some c →
  selectable k = true →
  feed tb "" (list_ascii_of_string k) = ([c], Some "").
Proof.
  intros Hkeys Hk Hsel. unfold selectable in Hsel.
  apply andb_true_iff in Hsel as [Hsel Hpre].
  apply andb_true_iff in Hsel as [Hsel Hetx].
  apply andb_true_iff in Hsel as [Hne Hq].
  apply negb_true_iff, String.eqb_neq in Hne, Hq, Hetx.
  apply feed_key; try done.
  intros p r Hsplit Hp Hr.
  pose proof (proper_prefixes_complete k p r Hsplit Hp Hr) as Hin.
  apply list_elem_of_In in Hin.
  apply (proj1 (forallb_forall _ _) Hpre) in Hin.
  apply andb_true_iff in Hin as [Hin Hetx'].
  apply andb_true_iff in Hin as [Hin Hq'].
  apply negb_true_iff, String.eqb_neq in Hq', Hetx'.
  apply negb_true_iff, bool_decide_eq_false in Hin.
  split; [|done].
  destruct (tb !! p) as [c'|] eqn:Hp'; [|done].
  destruct Hin. by eapply Hkeys.
Qed.

Lemma possible_keys_selectable k :
  k ∈ possible_keys → k ∉ two_digit_keys → selectable k = true.
Proof.
  intros Hin Hnot.
  assert (forallb (λ k, selectable k || bool_decide (k ∈ two_digit_keys))
            possible_keys = true) as Hall by (vm_compute; reflexivity).
  apply list_elem_of_In in Hin.
  apply (proj1 (forallb_forall _ _) Hall) in Hin.
  apply orb_true_iff in Hin as [Hin | Hin]; [done|].
  by apply bool_decide_eq_true in Hin.
Qed.

(** X6. Every key of an active table other than "10" .. "14", typed from an
    empty buffer, yields its command, once, and leaves the buffer empty. *)
Lemma keys_reachable acts flag dir per_frame flag' md st k c :
  enumerate_affordances flag' md = Ok st →
  active_table (default_interact_commands (init acts flag dir per_frame))
               (new_commands (cmds st)) !! k = Some c →
  k ∉ two_digit_keys →
  feed (active_table (default_interact_commands (init acts flag dir per_frame))
                     (new_commands (cmds st)))
       "" (list_ascii_of_string k) = ([c], Some "").
Proof.
  intros Hrun Hk Hnot. apply selectable_feed; [|done|].
  - intros k' c' Hk'. by eapply active_table_keys.
  - apply possible_keys_selectable; [by eapply active_table_keys | done].
Qed.

(** C3 fails on the two-digit slots.  In a session where "i" has made the
    controller show the fridge with the apple in hand, typing "1" then "0"
    sends CloseObject, the command of key "1", to the controller and leaves the
    buffer empty.  The active table of that step maps "10" to DropHandObject;
    the interpreter yields on "1" and then discards "0". *)
Theorem slot_ten_unreachable :
  dispatched (fridge_session "i10").1 =
    [ [("action", VStr "LookUp")];
      [("action", VStr "CloseObject"); ("objectId", VStr "Fridge|1")] ] ∧
  buffer_left (fridge_session "i10").2 = Some "" ∧
  enumerate_affordances true fridge_md = Ok fridge_state ∧
  fridge_table !! "10" = Some [("action", VStr "DropHandObject")] ∧
  fridge_table !! "1" =
    Some [("action", VStr "CloseObject"); ("objectId", VStr "Fridge|1")] ∧
  interpret fridge_table "" "1" =
    Yield [("action", VStr "CloseObject"); ("objectId", VStr "Fridge|1")] ∧
  feed fridge_table "" (list_ascii_of_string "10") =
    ([[("action", VStr "CloseObject"); ("objectId", VStr "Fridge|1")]], Some "").
Proof. repeat split; vm_compute; reflexivity. Qed.

(** C5, as stated, fails: with the escape byte buffered (a proper prefix of
    the arrow keys), "q" and the interrupt byte are appended, the buffer
    matches nothing and is reset, and the loop goes on. *)
Lemma quit_with_partial_buffer_counterexample :
  all_defaults !! String ESC "" = None ∧
  some_key_startswith all_defaults (String ESC "") = true ∧
  interpret all_defaults (String ESC "") "q" = Buffer "" ∧
  interpret all_defaults (String ESC "") ETX = Buffer "" ∧
  feed all_defaults (String ESC "") ["q"%char; "i"%char] =
    ([[("action", VStr "LookUp")]], Some "").
Proof. repeat split; vm_compute; reflexivity. Qed.

(** C5, amended. When the buffer is empty, "q" or the interrupt byte ends
    the loop and no command is yielded, whatever the table holds; when the
    buffer is not empty, no character ends the loop. *)
Theorem quit_needs_empty_buffer (commands : table) current_buffer ch rest :
  ch = "q"%char ∨ ch = ETX →
  interpret commands "" ch = Break ∧
  feed commands "" (ch :: rest) = ([], None) ∧
  (current_buffer ≠ "" → interpret commands current_buffer ch ≠ Break).
Proof.
  intros Hch.
  assert (interpret commands "" ch = Break) as Hbreak
    by (by destruct Hch as [-> | ->]).
  split; [done|]. split; [by simpl; rewrite Hbreak|].
  intros Hbuf. unfold interpret. rewrite long_buffer_no_quit by done.
  destruct (commands !! _); [done|]. by destruct (some_key_startswith _ _).
Qed.

(** Witness of C5 (amended): the full static table. *)
Lemma quit_needs_empty_buffer_witness :
  ("q"%char = "q"%char ∨ "q"%char = ETX) ∧
  interpret all_defaults "" "q" = Break ∧
  feed all_defaults "" ["q"%char; "i"%char] = ([], None).
Proof.
  split; [by left|].
  destruct (quit_needs_empty_buffer all_defaults "" "q" ["i"%char]) as (H1 & H2 & _);
    [by left | by split].
Defined.

(** ** The session loop reads through [get_term_character] *)

Lemma session_loop_read {frame controller : Type}
    (shape_str : frame → string) (cvtColor_BGR2RGB minmax_uint8 astype_float32 : frame → frame)
    (float_str : Qc → string)
    (controller_step : controller → command → result (controller * @event frame))
    flags isatty self ctl current_buffer input :
  session_loop shape_str cvtColor_BGR2RGB minmax_uint8 astype_float32 float_str
    controller_step flags isatty self ctl current_buffer input =
  match get_term_character isatty input with
  | Raise e => ([], Raised e)
  | Ok None => ([], Waiting self ctl current_buffer)
  | Ok (Some (ch, input')) =>
      match interpret (_interact_commands self) current_buffer ch with
      | Break => ([], Returned self ctl)
      | Buffer b =>
          session_loop shape_str cvtColor_BGR2RGB minmax_uint8 astype_float32
            float_str controller_step flags isatty self ctl b input'
      | Yield a =>
          match step_body shape_str cvtColor_BGR2RGB minmax_uint8 astype_float32
                  float_str controller_step flags self ctl a with
          | (out, Ok (self', ctl')) =>
              let r := session_loop shape_str cvtColor_BGR2RGB minmax_uint8
                         astype_float32 float_str controller_step flags isatty
                         self' ctl' "" input' in
              ((out ++ r.1)%list, r.2)
          | (out, Raise e) => (out, Raised e)
          end
      end
  end.
Proof. unfold get_term_character. destruct input, isatty; reflexivity. Qed.

(** ** The terminal guard *)

(** C4, as stated, fails: the guard of l. 84 looks at standard output.
    With standard input not a terminal and standard output a terminal, the
    usage error is not raised: the instructions are printed and the loop
    starts; it ends when the first read asks termios for the attributes of
    standard input. *)
Lemma stdin_not_a_terminal_counterexample :
  stdin_isatty piped_stdin = false ∧
  idle_interact (init all_default_actions true "." false) no_flags piped_stdin
    = ([Print command_message], Raised TermiosError) ∧
  idle_interact (init all_default_actions true "." false) no_flags piped_stdin
    ≠ ([], Raised usage_error).
Proof. split; [reflexivity|]. split; [reflexivity | discriminate]. Qed.

(** C4, amended. If standard output is not attached to a terminal,
    [interact] raises the usage error at once, for every configuration,
    controller and pending input: nothing is printed, no character is read,
    no command reaches the controller. *)
Theorem interact_needs_terminal_output {frame controller : Type}
    (shape_str : frame → string) (cvtColor_BGR2RGB minmax_uint8 astype_float32 : frame → frame)
    (float_str : Qc → string)
    (controller_step : controller → command → result (controller * @event frame))
    (self : prompt) (ctl : controller) (flags : frame_flags) (t : terminal) :
  stdout_isatty t = false →
  interact shape_str cvtColor_BGR2RGB minmax_uint8 astype_float32 float_str
    controller_step self ctl flags t = ([], Raised usage_error).
Proof. intros Hout. unfold interact. by rewrite Hout. Qed.

(** Witness of C4 (amended): standard output redirected. *)
Lemma interact_needs_terminal_output_witness :
  stdout_isatty no_terminal = false ∧
  idle_interact (init all_default_actions true "." false) no_flags no_terminal
    = ([], Raised usage_error).
Proof.
  split; [reflexivity|].
  apply (interact_needs_terminal_output (λ _ : unit, "()") id id id (λ _, "")
           idle_controller). reflexivity.
Defined.

(** ** The frame writer *)

Lemma rev_app_spec (s acc : string) :
  String.rev_app s acc = String.rev s +:+ acc.
Proof.
  unfold String.rev. revert acc.
  induction s as [|a s IH]; intros acc; simpl; [done|].
  rewrite (IH (String a acc)), (IH (String a "")).
  by rewrite string_app_assoc.
Qed.

Lemma rev_cons a (s : string) : String.rev (String a s) = String.rev s +:+ String a "".
Proof. unfold String.rev at 1. simpl. apply rev_app_spec. Qed.

Lemma rev_app_distr (s1 s2 : string) :
  String.rev (s1 +:+ s2) = String.rev s2 +:+ String.rev s1.
Proof.
  induction s1 as [|a s1 IH].
  - by rewrite string_app_nil_l, string_app_nil_r.
  - by rewrite string_app_cons, !rev_cons, IH, string_app_assoc.
Qed.

Lemma rev_involutive (s : string) : String.rev (String.rev s) = s.
Proof.
  induction s as [|a s IH]; [done|].
  by rewrite rev_cons, rev_app_distr, IH.
Qed.

(** Where [strip] does remove just the extension: the name neither starts
    nor (before the extension) ends with one of the characters ".png". *)
Lemma strip_png_extension (s s' y : string) c0 c :
  s = String c0 s' → s = y +:+ String c "" →
  in_chars ".png" c0 = false → in_chars ".png" c = false →
  strip ".png" (s +:+ ".png") = s.
Proof.
  intros Hfirst Hlast Hc0 Hc. unfold strip.
  assert (lstrip ".png" (s +:+ ".png") = s +:+ ".png") as ->.
  { rewrite Hfirst, string_app_cons. simpl. by rewrite Hc0. }
  unfold rstrip. rewrite rev_app_distr.
  rewrite Hlast at 1. rewrite rev_app_distr.
  change (String.rev ".png") with "gnp.".
  change (String.rev (String c "")) with (String c "").
  rewrite (string_app_cons c "" (String.rev y)), string_app_nil_l.
  assert (lstrip ".png" ("gnp." +:+ String c (String.rev y)) = String c (String.rev y)) as ->.
  { change ("gnp." +:+ String c (String.rev y))
      with (String "g" (String "n" (String "p" (String "." (String c (String.rev y)))))).
    simpl. by rewrite Hc. }
  by rewrite rev_cons, rev_involutive.
Qed.

Lemma prefix_one c a (s : string) :
  String.prefix (String c "") (String a s) = (if ascii_dec c a then true else false).
Proof. cbn [String.prefix]. destruct (ascii_dec c a); by destruct s. Qed.

Lemma path_join_extension (dir base : string) a :
  String.prefix "/" (String a base) = false →
  path_join dir (String a base +:+ ".png") = path_join dir (String a base) +:+ ".png".
Proof.
  intros Hrel. unfold path_join. rewrite Hrel.
  assert (String.prefix "/" (String a base +:+ ".png") = false) as ->.
  { rewrite string_app_cons, prefix_one. by rewrite prefix_one in Hrel. }
  destruct ((dir =? "")%string || endswith dir "/"); by rewrite !string_app_assoc.
Qed.

(** X25. The array name is the image name without its extension where the
    directory does not start with ".", "p", "n" or "g" and one file is kept
    per run. *)
Lemma raw_depth_name_kept (dir : string) suffix :
  (∀ c d, dir = String c d → in_chars ".png" c = false) →
  strip ".png" (image_name_of dir suffix false "depth_raw") = path_join dir "depth_raw".
Proof.
  intros Hdir. unfold image_name_of.
  change ("depth_raw" +:+ "" +:+ ".png") with ("depth_raw" +:+ ".png").
  rewrite path_join_extension by done.
  unfold path_join. change (String.prefix "/" "depth_raw") with false.
  destruct dir as [|c0 d].
  - by apply (strip_png_extension _ "epth_raw" "depth_ra" "d" "w").
  - pose proof (Hdir c0 d eq_refl) as Hc0.
    destruct ((String c0 d =? "")%string || endswith (String c0 d) "/").
    + apply (strip_png_extension _ (d +:+ "depth_raw") (String c0 d +:+ "depth_ra") c0 "w");
        try done.
      by rewrite string_app_assoc.
    + apply (strip_png_extension _ (d +:+ "/" +:+ "depth_raw")
               (String c0 d +:+ "/" +:+ "depth_ra") c0 "w"); try done.
      by rewrite !string_app_assoc.
Qed.

Section FrameWriterFacts.

Context {frame : Type}.
Variable shape_str : frame → string.
Variable cvtColor_BGR2RGB minmax_uint8 astype_float32 : frame → frame.

Local Abbreviation write :=
  (write_image shape_str cvtColor_BGR2RGB minmax_uint8 astype_float32).

(** The flags reach the channel list but not the loop body. *)
Lemma write_image_ignores_flags ev image_dir suffix per_frame c i d col c' i' d' col' :
  write ev image_dir suffix per_frame c i d col =
  write ev image_dir suffix per_frame c' i' d' col'.
Proof. reflexivity. Qed.

(** C2 fails on the code.  With all four flags false, every event makes
    [write_image] either write a file or print the "No frame present"
    diagnostic: an event without frames gets the diagnostic for each of the
    five channels, an event with a color frame gets the color image written. *)
Theorem flags_off_still_writes ev md image_dir suffix per_frame (img : frame) :
  (∃ e, e ∈ write ev image_dir suffix per_frame false false false false ∧
        (is_disk_write e = true ∨ is_no_frame_diagnostic e = true)) ∧
  write {| ev_frame := None; instance_segmentation_frame := None;
           class_segmentation_frame := None; depth_frame := None;
           ev_metadata := md |}
        image_dir suffix per_frame false false false false
    = replicate 5 (Print "No frame present, call initialize with the right parameters") ∧
  ImWrite (image_name_of image_dir suffix per_frame "color") (cvtColor_BGR2RGB img)
    ∈ write {| ev_frame := Some img; instance_segmentation_frame := None;
               class_segmentation_frame := None; depth_frame := None;
               ev_metadata := md |}
            image_dir suffix per_frame false false false false.
Proof.
  split; [|split; [reflexivity|]].
  - destruct ev as [[f1|] f2 f3 f4 md'].
    + exists (ImWrite (image_name_of image_dir suffix per_frame "color")
                (cvtColor_BGR2RGB f1)).
      split; [|by left]. do 2 right. by left.
    + exists (Print "No frame present, call initialize with the right parameters").
      split; [by left | by right].
  - change (write_image _ _ _ _ _ _ _ _ _ _ _ _)
      with (Print (shape_str img)
            :: Print ("Image " +:+ image_name_of image_dir suffix per_frame "color")
            :: ImWrite (image_name_of image_dir suffix per_frame "color")
                 (cvtColor_BGR2RGB img)
            :: replicate 4
                 (Print "No frame present, call initialize with the right parameters")).
    rewrite !elem_of_cons. tauto.
Qed.

(** C6 fails on the code.  In the default image directory "." the image
    name of the raw depth channel is "./depth_raw.png"; [strip] removes the
    leading dot together with the extension, so the array goes to
    "/depth_raw" and not to "./depth_raw". *)
Theorem raw_depth_name_loses_directory md suffix c i col (arr : frame) :
  image_name_of "." suffix false "depth_raw" = "./depth_raw.png" ∧
  NpSave "/depth_raw" (astype_float32 arr)
    ∈ write {| ev_frame := None; instance_segmentation_frame := None;
               class_segmentation_frame := None; depth_frame := Some arr;
               ev_metadata := md |}
            "." suffix false c i true col ∧
  NpSave "./depth_raw" (astype_float32 arr)
    ∉ write {| ev_frame := None; instance_segmentation_frame := None;
               class_segmentation_frame := None; depth_frame := Some arr;
               ev_metadata := md |}
            "." suffix false c i true col.
Proof.
  split; [reflexivity|].
  assert (write {| ev_frame := None; instance_segmentation_frame := None;
                   class_segmentation_frame := None; depth_frame := Some arr;
                   ev_metadata := md |} "." suffix false c i true col
          = [ Print "No frame present, call initialize with the right parameters";
              Print "No frame present, call initialize with the right parameters";
              Print "No frame present, call initialize with the right parameters";
              Print (shape_str arr);
              Print "Image ./depth.png";
              ImWrite "./depth.png" (minmax_uint8 arr);
              Print (shape_str arr);
              Print "Image ./depth_raw.png";
              NpSave "/depth_raw" (astype_float32 arr) ]) as -> by reflexivity.
  split.
  - rewrite !elem_of_cons. tauto.
  - rewrite !elem_of_cons, elem_of_nil.
    intros [H|[H|[H|[H|[H|[H|[H|[H|[H|[]]]]]]]]]]; discriminate.
Qed.

End FrameWriterFacts.

(** * Further properties *)

(** ** Which actions enter the dynamic table *)

Ltac in_list := apply (bool_decide_unpack _); vm_compute; exact I.

Ltac not_in_list :=
  let H := fresh in
  intros H; exfalso; revert H; apply (proj1 (bool_decide_eq_false _));
  vm_compute; reflexivity.

Lemma table_affordance flag md st k com :
  enumerate_affordances flag md = Ok st →
  new_commands (cmds st) !! k = Some com →
  event_affordance md com.
Proof.
  intros Hrun Hk. apply enumerate_affordances_grows in Hrun.
  destruct (grows_lookup _ _ _ _ _ Hrun Hk) as [Hold | Haff]; [|done].
  simpl in Hold. by rewrite lookup_empty in Hold.
Qed.

Lemma hand_moves_hand_action a :
  a ∈ hand_moves → a ∈ hand_actions ∧ a ≠ "PickupObject".
Proof.
  unfold hand_actions, hand_moves. rewrite !elem_of_cons, elem_of_nil.
  intros Ha. split.
  - right. apply elem_of_app. left. rewrite !elem_of_cons. tauto.
  - intuition (subst; discriminate).
Qed.

Lemma affordance_action md o com :
  affordance md o com →
  ∃ a, dict_get com "action" = Some (VStr a) ∧ a ∈ object_actions ∧
       (a = "PickupObject" → inventoryObjects md = []) ∧
       (a ∈ hand_actions → inventoryObjects md ≠ []).
Proof.
  intros Haff.
  destruct Haff as [| | |first rest inv oid Hinv _ _ _
                    |first rest a Hinv Ha|first rest Hinv|oid Hinv _];
    simpl; eexists; (split; [reflexivity|]).
  - split; [in_list|]. split; [done | not_in_list].
  - split; [in_list|]. split; [done | not_in_list].
  - split; [in_list|]. split; [done | not_in_list].
  - split; [in_list|]. split; [done|]. by rewrite Hinv.
  - apply hand_moves_hand_action in Ha as [Ha Hne].
    split; [by apply elem_of_app; right|]. split; [done|]. by rewrite Hinv.
  - split; [in_list|]. split; [done|]. by rewrite Hinv.
  - split; [in_list|]. split; [done | not_in_list].
Qed.

(** X8. While an item is held no PickupObject is offered, and PutObject, the
    MoveHand commands and DropHandObject are offered only while an item is
    held; no other action than the eleven object actions enters the dynamic
    table. *)
Theorem hand_actions_follow_inventory flag md st k com a :
  enumerate_affordances flag md = Ok st →
  new_commands (cmds st) !! k = Some com →
  dict_get com "action" = Some (VStr a) →
  a ∈ object_actions ∧
  (a = "PickupObject" → inventoryObjects md = []) ∧
  (a ∈ hand_actions → inventoryObjects md ≠ []).
Proof.
  intros Hrun Hk Hact.
  destruct (table_affordance _ _ _ _ _ Hrun Hk) as (o & _ & Haff).
  apply affordance_action in Haff as (a' & Ha' & Hrest).
  rewrite Hact in Ha'. by injection Ha' as <-.
Qed.

Lemma affordance_put_distinct md o com :
  affordance md o com →
  dict_get com "action" = Some (VStr "PutObject") →
  ∃ inv oid, dict_get com "objectId" = Some inv ∧
             dict_get com "receptacleObjectId" = Some oid ∧
             py_eq inv oid = false.
Proof.
  intros Haff.
  destruct Haff as [| | |first rest inv oid _ _ _ Hne|first rest a _ Ha| |];
    simpl; try discriminate.
  - intros _. by exists inv, oid.
  - intros [= ->]. by apply hand_moves_action in Ha as [? _].
Qed.

(** X9. A PutObject entry never puts the held item into itself: its receptacle
    differs (by Python's [!=]) from the object it puts. *)
Theorem put_object_never_into_itself flag md st k com :
  enumerate_affordances flag md = Ok st →
  new_commands (cmds st) !! k = Some com →
  dict_get com "action" = Some (VStr "PutObject") →
  ∃ inv oid, dict_get com "objectId" = Some inv ∧
             dict_get com "receptacleObjectId" = Some oid ∧
             py_eq inv oid = false.
Proof.
  intros Hrun Hk Hact.
  destruct (table_affordance _ _ _ _ _ Hrun Hk) as (o & _ & Haff).
  by eapply affordance_put_distinct.
Qed.

Lemma for_each_app {A S : Type} (body : S → A → result S) s l1 l2 :
  for_each body s (l1 ++ l2) = (for_each body s l1 ≫= λ s', for_each body s' l2).
Proof.
  revert s. induction l1 as [|a l1 IH]; intros s; simpl; [done|].
  destruct (body s a) as [s'|e]; simpl; [apply IH | done].
Qed.

Lemma enumerate_object_visible md st o st' :
  enumerate_object md st o = Ok st' →
  visible_objects st' = (visible_objects st ++ option_list (visible_id o))%list.
Proof.
  unfold enumerate_object, visible_id, getitem.
  destruct (o !! "visible") as [vis|]; simpl; [|discriminate].
  destruct (truthy vis).
  - destruct (o !! "objectId") as [oid|]; simpl; [|discriminate].
    destruct (openable_branch o (cmds st)) as [cc1|]; simpl; [|discriminate].
    destruct (toggleable_branch o cc1) as [cc2|]; simpl; [|discriminate].
    destruct (inventory_branch md o cc2) as [cc3|]; simpl; [|discriminate].
    by intros [= <-].
  - intros [= <-]. simpl. by rewrite app_nil_r.
Qed.

Lemma for_each_visible md l st st' :
  for_each (enumerate_object md) st l = Ok st' →
  visible_objects st' = (visible_objects st ++ omap visible_id l)%list.
Proof.
  revert st. induction l as [|o l IH]; intros st; simpl.
  - intros [= <-]. by rewrite app_nil_r.
  - destruct (enumerate_object md st o) as [st1|] eqn:H1; simpl; [|discriminate].
    intros Hrest. apply IH in Hrest. apply enumerate_object_visible in H1.
    rewrite Hrest, H1, <- app_assoc. f_equal.
    by destruct (visible_id o).
Qed.

(** X10. The list printed under "Visible Objects" holds the [objectId] of
    exactly the descriptors whose [visible] attribute is true, in the order
    of the event. *)
Theorem visible_objects_listed md st :
  enumerate_affordances true md = Ok st →
  visible_objects st = omap visible_id (objects md).
Proof. intros H. by apply for_each_visible in H. Qed.

(** ** Visibility, order and errors of the enumeration *)

Lemma enumerate_object_invisible md st o st' :
  enumerate_object md st o = Ok st' → is_visible o = false → st' = st.
Proof.
  unfold enumerate_object, is_visible, getitem.
  destruct (o !! "visible") as [vis|]; simpl; [|discriminate].
  intros H Hvis. rewrite Hvis in H. by injection H.
Qed.

Lemma for_each_filter_visible md l st st' :
  for_each (enumerate_object md) st l = Ok st' →
  for_each (enumerate_object md) st (List.filter is_visible l) = Ok st'.
Proof.
  revert st. induction l as [|o l IH]; intros st; simpl; [done|].
  destruct (enumerate_object md st o) as [st1|] eqn:H1; simpl; [|discriminate].
  intros Hrest. destruct (is_visible o) eqn:Hvis; simpl.
  - rewrite H1. simpl. by apply IH.
  - apply enumerate_object_invisible in H1 as ->; [|done]. by apply IH.
Qed.

(** X11. Descriptors that are not visible do not count: the enumeration of an
    event gives the result it gives on the visible descriptors alone. *)
Theorem invisible_objects_ignored flag md st :
  enumerate_affordances flag md = Ok st →
  enumerate_affordances flag
    (with_objects md (List.filter is_visible (objects md))) = Ok st.
Proof.
  unfold enumerate_affordances. destruct flag; [|done].
  intros H. by apply for_each_filter_visible in H.
Qed.

Lemma grows_subseteq P cc cc' :
  slots_ok cc → grows P cc cc' → new_commands cc ⊆ new_commands cc'.
Proof.
  intros Hok Hgrows. induction Hgrows as [|cc cc' action args Hg IH HP]; [done|].
  specialize (IH Hok). etrans; [exact IH|].
  pose proof (grows_ok _ _ _ Hg Hok) as [Hr Hk Hs].
  unfold add_command. destruct (counter cc' <? 15); [|done]. simpl.
  apply insert_subseteq. apply eq_None_not_Some. rewrite Hk.
  intros (n & Hn & Heq). apply (inj pretty) in Heq. lia.
Qed.

Lemma for_each_grows_any md l st st' :
  for_each (enumerate_object md) st l = Ok st' →
  grows (λ _, True) (cmds st) (cmds st').
Proof.
  revert st. induction l as [|o l IH]; intros st; simpl.
  - intros [= <-]. constructor.
  - destruct (enumerate_object md st o) as [st1|] eqn:H1; simpl; [|discriminate].
    intros Hrest. eapply grows_trans; [|by apply IH].
    eapply grows_weaken; [|by eapply enumerate_object_grows]. done.
Qed.

Lemma for_each_stable md l st st' :
  slots_ok (cmds st) →
  for_each (enumerate_object md) st l = Ok st' →
  new_commands (cmds st) ⊆ new_commands (cmds st') ∧
  visible_objects st `prefix_of` visible_objects st'.
Proof.
  intros Hok Hrun. split.
  - eapply grows_subseteq; [done|]. by eapply for_each_grows_any.
  - apply for_each_visible in Hrun as ->. by apply prefix_app_r.
Qed.

(** X12. Slots are stable under descriptors that come later: the table and the
    visible list of an event are kept, entry for entry, when further
    descriptors follow in the event's list. *)
Theorem earlier_slots_stable md l1 l2 st1 st2 :
  enumerate_affordances true (with_objects md l1) = Ok st1 →
  enumerate_affordances true (with_objects md (l1 ++ l2)) = Ok st2 →
  new_commands (cmds st1) ⊆ new_commands (cmds st2) ∧
  visible_objects st1 `prefix_of` visible_objects st2.
Proof.
  intros H1 H2. pose proof (enumerate_affordances_ok _ _ _ H1) as Hok.
  unfold enumerate_affordances in *. simpl in *.
  rewrite for_each_app in H2.
  change (enumerate_object (with_objects md (l1 ++ l2)))
    with (enumerate_object (with_objects md l1)) in H2.
  rewrite H1 in H2. simpl in H2.
  by eapply for_each_stable.
Qed.

Lemma enumerate_object_raise md st o e :
  enumerate_object md st o = Raise e →
  ∃ k, e = KeyError k ∧ k ∈ descriptor_keys.
Proof.
  unfold enumerate_object, openable_branch, toggleable_branch, inventory_branch,
    put_condition, put_commands, getitem.
  intros H.
  repeat (case_match; simpl in *; simplify_eq);
    eexists; (split; [reflexivity | in_list]).
Qed.

(** X13. The enumeration fails only on a missing attribute: whatever it raises
    is the [KeyError] of one of the six attributes it reads. *)
Theorem enumeration_raises_key_errors flag md e :
  enumerate_affordances flag md = Raise e →
  ∃ k, e = KeyError k ∧ k ∈ descriptor_keys.
Proof.
  unfold enumerate_affordances. destruct flag; [|discriminate].
  generalize {| visible_objects := []; cmds := fresh_slots |}.
  induction (objects md) as [|o l IH]; intros st; simpl; [discriminate|].
  destruct (enumerate_object md st o) as [st1|e1] eqn:H1; simpl.
  - apply IH.
  - intros [= <-]. by eapply enumerate_object_raise.
Qed.

(** ** The static table and the interpreter *)

Ltac in_literal :=
  unfold default_interact_commands_literal, plain_command, move_command;
  rewrite !elem_of_cons; repeat first [by left | right].

Lemma literal_keys_NoDup : NoDup default_interact_commands_literal.*1.
Proof. apply (bool_decide_unpack _). vm_compute. exact I. Qed.

Lemma filter_fst_NoDup {A B} (P : A * B → Prop) `{∀ x, Decision (P x)} (l : list (A * B)) :
  NoDup l.*1 → NoDup (filter P l).*1.
Proof.
  induction l as [|[a b] l IH]; simpl; [done|].
  rewrite NoDup_cons. intros [Hnot Hnd].
  rewrite filter_cons. destruct (decide (P (a, b))); simpl; [|by apply IH].
  apply NoDup_cons. split; [|by apply IH].
  intros Hin. apply Hnot.
  apply list_elem_of_fmap in Hin as ([a' b'] & -> & Hin).
  apply list_elem_of_filter in Hin as [_ Hin].
  apply list_elem_of_fmap. by exists (a', b').
Qed.

Lemma action_in_permitted acts v :
  action_in (list_to_set (name <$> acts)) v = true ↔ permitted acts v.
Proof.
  unfold action_in, permitted. split.
  - destruct (dict_get v "action") as [[| | | |a]|]; try discriminate.
    intros Hin. apply bool_decide_eq_true in Hin.
    apply elem_of_list_to_set, list_elem_of_fmap in Hin as (x & -> & Hx).
    by exists x.
  - intros (x & Hx & ->). apply bool_decide_eq_true.
    apply elem_of_list_to_set, list_elem_of_fmap. by exists x.
Qed.

Lemma default_lookup acts flag dir per_frame k c :
  default_interact_commands (init acts flag dir per_frame) !! k = Some c ↔
  (k, c) ∈ default_interact_commands_literal ∧ permitted acts c.
Proof.
  simpl. rewrite <- elem_of_list_to_map.
  - rewrite list_elem_of_filter. simpl. rewrite action_in_permitted. tauto.
  - apply filter_fst_NoDup, literal_keys_NoDup.
Qed.

(** X1. The static table of a prompt holds exactly the entries of the literal
    of [__init__] whose action is the name of one of the default actions
    given, each with the literal's command. *)
Theorem static_table_lookup acts flag dir per_frame k c :
  default_interact_commands (init acts flag dir per_frame) !! k = Some c ↔
  (k, c) ∈ default_interact_commands_literal ∧ permitted acts c.
Proof. apply default_lookup. Qed.

(** X2. The static table depends on the default actions as a set only, and not
    on the other arguments of the constructor. *)
Theorem static_table_of_set acts acts' flag flag' dir dir' per_frame per_frame' :
  (∀ a, a ∈ acts ↔ a ∈ acts') →
  default_interact_commands (init acts flag dir per_frame) =
  default_interact_commands (init acts' flag' dir' per_frame').
Proof.
  intros Hsame. apply map_eq. intros k. apply option_eq. intros c.
  rewrite !default_lookup. unfold permitted.
  split; intros [Hin (a & Ha & Hact)]; (split; [done|]); exists a;
    (split; [by apply Hsame | done]).
Qed.

Lemma literal_functional k (c v : command) :
  (k, c) ∈ default_interact_commands_literal →
  (k, v) ∈ default_interact_commands_literal → c = v.
Proof.
  intros Hc Hv.
  apply (elem_of_list_to_map_1 (M := gmap string)) in Hc; [|apply literal_keys_NoDup].
  apply (elem_of_list_to_map_1 (M := gmap string)) in Hv; [|apply literal_keys_NoDup].
  congruence.
Qed.

Lemma default_lookup_literal acts flag dir per_frame k v :
  (k, v) ∈ default_interact_commands_literal →
  default_interact_commands (init acts flag dir per_frame) !! k =
    if action_in (list_to_set (name <$> acts)) v then Some v else None.
Proof.
  intros Hin. apply option_eq. intros c. rewrite default_lookup.
  rewrite <- action_in_permitted. split.
  - intros [Hc Hp].
    assert (c = v) as -> by (by eapply literal_functional).
    by rewrite Hp.
  - destruct (action_in _ v) eqn:Hp; [|discriminate]. by intros [= <-].
Qed.

(** X3. In every configuration the letters i, k, l, j stand for the same
    commands as shift-up, shift-down, shift-right, shift-left: each pair is
    present or absent together, with equal commands. *)
Theorem letters_alias_shift_arrows acts flag dir per_frame :
  let t := default_interact_commands (init acts flag dir per_frame) in
  t !! "i" = t !! String ESC "[1;2A" ∧
  t !! "k" = t !! String ESC "[1;2B" ∧
  t !! "l" = t !! String ESC "[1;2C" ∧
  t !! "j" = t !! String ESC "[1;2D".
Proof.
  cbv zeta.
  rewrite (default_lookup_literal _ _ _ _ "i" (plain_command "LookUp")) by in_literal.
  rewrite (default_lookup_literal _ _ _ _ (String ESC "[1;2A") (plain_command "LookUp"))
    by in_literal.
  rewrite (default_lookup_literal _ _ _ _ "k" (plain_command "LookDown")) by in_literal.
  rewrite (default_lookup_literal _ _ _ _ (String ESC "[1;2B") (plain_command "LookDown"))
    by in_literal.
  rewrite (default_lookup_literal _ _ _ _ "l" (plain_command "RotateRight")) by in_literal.
  rewrite (default_lookup_literal _ _ _ _ (String ESC "[1;2C") (plain_command "RotateRight"))
    by in_literal.
  rewrite (default_lookup_literal _ _ _ _ "j" (plain_command "RotateLeft")) by in_literal.
  rewrite (default_lookup_literal _ _ _ _ (String ESC "[1;2D") (plain_command "RotateLeft"))
    by in_literal.
  done.
Qed.

Lemma static_not_slot k : k ∈ static_keys → k ∉ slot_keys.
Proof.
  intros Hin Hslot.
  assert (forallb (λ k, negb (bool_decide (k ∈ slot_keys))) static_keys = true)
    as Hall by (vm_compute; reflexivity).
  apply list_elem_of_In in Hin.
  apply (proj1 (forallb_forall _ _) Hall) in Hin.
  apply negb_true_iff, bool_decide_eq_false in Hin. done.
Qed.

(** X15. The dynamic entries of a step never shadow a static key: on the static
    keys the active table is the static table, and every dynamic entry is in
    the active table. *)
Theorem static_keys_not_shadowed acts flag dir per_frame flag' md st k :
  enumerate_affordances flag' md = Ok st →
  k ∈ static_keys →
  active_table (default_interact_commands (init acts flag dir per_frame))
               (new_commands (cmds st)) !! k
    = default_interact_commands (init acts flag dir per_frame) !! k ∧
  new_commands (cmds st) ⊆
    active_table (default_interact_commands (init acts flag dir per_frame))
                 (new_commands (cmds st)).
Proof.
  intros Hrun Hk. unfold active_table. split; [|apply map_union_subseteq_l].
  apply lookup_union_r. apply eq_None_not_Some. intros Hsome.
  apply (dynamic_slots_numbered _ _ _ _ Hrun) in Hsome as (n & Hn & ->).
  by apply (static_not_slot (pretty n)); [|apply slot_key].
Qed.

Lemma some_key_startswith_elim (commands : table) b :
  some_key_startswith commands b = true →
  ∃ k c, commands !! k = Some c ∧ String.prefix b k = true.
Proof.
  unfold some_key_startswith. intros H.
  apply existsb_exists in H as ([k c] & Hin & Hpre).
  apply list_elem_of_In, elem_of_map_to_list in Hin. by exists k, c.
Qed.

Lemma interpret_invariant (commands : table) b ch :
  match interpret commands b ch with
  | Break => True
  | Yield c => ∃ k, commands !! k = Some c
  | Buffer b' => pending_prefix commands b'
  end.
Proof.
  unfold interpret.
  destruct (_ || _); [done|].
  destruct (commands !! (b +:+ String ch "")) as [c|] eqn:Hk; [by eauto|].
  destruct (some_key_startswith commands _) eqn:Hpre; [|by left].
  right. split; [done|]. by apply some_key_startswith_elim.
Qed.

Lemma feed_invariant_from (commands : table) chars b out left :
  feed commands b chars = (out, left) →
  (∀ c, c ∈ out → ∃ k, commands !! k = Some c) ∧
  (length out ≤ length chars)%nat ∧
  (pending_prefix commands b → ∀ b', left = Some b' → pending_prefix commands b').
Proof.
  revert b out left. induction chars as [|ch chars IH]; intros b out left; simpl.
  - intros [= <- <-]. split; [by intros c Hc; apply elem_of_nil in Hc|].
    split; [done|]. by intros Hb b' [= <-].
  - pose proof (interpret_invariant commands b ch) as Hturn.
    destruct (interpret commands b ch) as [|c|b1].
    + intros [= <- <-]. split; [by intros c Hc; apply elem_of_nil in Hc|].
      split; [simpl; lia | done].
    + destruct (feed commands "" chars) as [out1 left1] eqn:Hrest. simpl.
      intros [= <- <-]. destruct (IH _ _ _ Hrest) as (Hout & Hlen & Hleft).
      split; [|split].
      * intros c' [->|Hc']%elem_of_cons; [done | by apply Hout].
      * simpl. lia.
      * intros _. apply Hleft. by left.
    + intros Hrest. destruct (IH _ _ _ Hrest) as (Hout & Hlen & Hleft).
      split; [done|]. split; [simpl; lia|]. intros _. by apply Hleft.
Qed.

(** X4. Whatever is typed, from an empty buffer: every command yielded is a
    value of the table, at most one command is yielded per character, and the
    buffer left is empty or a proper beginning of some key. *)
Theorem feed_invariant (commands : table) chars out b :
  feed commands "" chars = (out, Some b) →
  (∀ c, c ∈ out → ∃ k, commands !! k = Some c) ∧
  (length out ≤ length chars)%nat ∧
  pending_prefix commands b.
Proof.
  intros H. apply feed_invariant_from in H as (Hout & Hlen & Hleft).
  split; [done|]. split; [done|]. apply Hleft; [by left | done].
Qed.


(** ** Sessions *)

Section SessionFacts.

Context {frame controller : Type}.
Variable shape_str : frame → string.
Variable cvtColor_BGR2RGB minmax_uint8 astype_float32 : frame → frame.
Variable float_str : Qc → string.
Variable controller_step : controller → command → result (controller * @event frame).

Local Abbreviation loop :=
  (session_loop shape_str cvtColor_BGR2RGB minmax_uint8 astype_float32 float_str
     controller_step).
Local Abbreviation body :=
  (step_body shape_str cvtColor_BGR2RGB minmax_uint8 astype_float32 float_str
     controller_step).
Local Abbreviation run :=
  (interact shape_str cvtColor_BGR2RGB minmax_uint8 astype_float32 float_str
     controller_step).

Lemma dispatched_app (l1 l2 : list (@effect frame)) :
  dispatched (l1 ++ l2) = (dispatched l1 ++ dispatched l2)%list.
Proof.
  induction l1 as [|e l1 IH]; simpl; [done|].
  destruct e; simpl; by rewrite ?IH.
Qed.

Lemma dispatched_write_image ev dir suffix per_frame c i d col :
  dispatched (write_image shape_str cvtColor_BGR2RGB minmax_uint8 astype_float32
                ev dir suffix per_frame c i d col) = [].
Proof. destruct ev as [[?|] [?|] [?|] [?|] ?]; reflexivity. Qed.

Lemma dispatched_print_commands (t : table) keys :
  dispatched (print_commands (frame := frame) float_str t keys).1 = [].
Proof.
  induction keys as [|k keys IH]; simpl; [done|].
  destruct (t !! k) as [v|]; simpl; [|done].
  destruct (command_info float_str k v); simpl; [exact IH | done].
Qed.

Lemma dispatched_print_status md st :
  dispatched (print_status (frame := frame) float_str md st).1 = [].
Proof.
  unfold print_status.
  destruct (join_sorted newline (visible_objects st)); simpl; [|done].
  apply dispatched_print_commands.
Qed.

Lemma step_body_dispatched flags self ctl a :
  dispatched (body flags self ctl a).1 = [a].
Proof.
  unfold step_body.
  destruct (controller_step ctl a) as [[ctl' ev]|]; simpl; [|done].
  destruct (enumerate_affordances _ _) as [st|]; simpl.
  - by rewrite dispatched_app, dispatched_write_image, dispatched_print_status.
  - by rewrite dispatched_write_image.
Qed.

Lemma step_body_self flags self ctl a out self' ctl' :
  body flags self ctl a = (out, Ok (self', ctl')) →
  same_configuration self self' ∧
  self_counter self' = self_counter self + 1 ∧
  ∃ md st, enumerate_affordances (has_object_actions self) md = Ok st ∧
           _interact_commands self' =
             active_table (default_interact_commands self) (new_commands (cmds st)).
Proof.
  unfold step_body.
  destruct (controller_step ctl a) as [[ctl1 ev]|]; simpl; [|discriminate].
  destruct (enumerate_affordances _ _) as [st|] eqn:Hrun; simpl; [|discriminate].
  destruct (print_status float_str (ev_metadata ev) st).2; [discriminate|].
  intros [= <- <- <-]. simpl. split; [done|]. split; [done|].
  by exists (ev_metadata ev), st.
Qed.

Lemma active_table_offered acts self md st :
  (∀ k v, default_interact_commands self !! k = Some v → permitted acts v) →
  enumerate_affordances (has_object_actions self) md = Ok st →
  ∀ k v, active_table (default_interact_commands self) (new_commands (cmds st)) !! k
           = Some v →
         offered acts (has_object_actions self) v.
Proof.
  intros Hdef Hrun k v Hk. unfold active_table in Hk.
  apply lookup_union_Some_raw in Hk as [Hk | [_ Hk]]; [|left; by eapply Hdef].
  right. destruct (has_object_actions self) eqn:Hflag.
  - split; [done|].
    destruct (table_affordance _ _ _ _ _ Hrun Hk) as (o & _ & Haff).
    apply affordance_action in Haff as (a & Ha & Hin & _). by exists a.
  - injection Hrun as <-. simpl in Hk. by rewrite lookup_empty in Hk.
Qed.

Lemma loop_offered acts flags isatty input self ctl b c :
  (∀ k v, default_interact_commands self !! k = Some v → permitted acts v) →
  (∀ k v, _interact_commands self !! k = Some v →
          offered acts (has_object_actions self) v) →
  c ∈ dispatched (loop flags isatty self ctl b input).1 →
  offered acts (has_object_actions self) c.
Proof.
  revert self ctl b. induction input as [|ch input IH]; intros self ctl b Hdef Htab;
    simpl; destruct isatty; simpl; try (by intros ?%elem_of_nil).
  pose proof (interpret_invariant (_interact_commands self) b ch) as Hturn.
  destruct (interpret (_interact_commands self) b ch) as [|a|b1]; simpl.
  - by intros ?%elem_of_nil.
  - destruct Hturn as [k Hk].
    pose proof (step_body_dispatched flags self ctl a) as Hstep.
    destruct (body flags self ctl a) as [out [[self' ctl']|e]] eqn:Hbody;
      simpl in *.
    + rewrite dispatched_app, Hstep.
      apply step_body_self in Hbody
        as ((_ & Hflag & _ & _ & Hsame) & _ & md & st & Hrun & Htab').
      intros [->%list_elem_of_singleton | Hc]%elem_of_app; [by eapply Htab|].
      rewrite <- Hflag. eapply IH; [| |exact Hc].
      * by rewrite Hsame.
      * rewrite Htab', Hflag. by apply (active_table_offered acts self md st).
    + rewrite Hstep. intros ->%list_elem_of_singleton. by eapply Htab.
  - by apply IH.
Qed.

Lemma loop_counter flags isatty input self ctl b :
  match (loop flags isatty self ctl b input).2 with
  | Returned self' _ | Waiting self' _ _ =>
      self_counter self' =
        self_counter self
        + Z.of_nat (length (dispatched (loop flags isatty self ctl b input).1)) ∧
      default_actions self' = default_actions self ∧
      has_object_actions self' = has_object_actions self ∧
      image_per_frame self' = image_per_frame self ∧
      image_dir self' = image_dir self ∧
      default_interact_commands self' = default_interact_commands self
  | Raised _ => True
  end.
Proof.
  revert self ctl b. induction input as [|ch input IH]; intros self ctl b;
    simpl; destruct isatty; simpl; try done; try (split; [lia | done]).
  destruct (interpret (_interact_commands self) b ch) as [|a|b1]; simpl.
  - split; [lia | done].
  - pose proof (step_body_dispatched flags self ctl a) as Hstep.
    destruct (body flags self ctl a) as [out [[self' ctl']|e]] eqn:Hbody;
      simpl in *; [|done].
    apply step_body_self in Hbody as ((H1 & H2 & H3 & H4 & H5) & Hcount & _).
    specialize (IH self' ctl' "").
    destruct (loop flags true self' ctl' "" input) as [out1 fin]. simpl in *.
    rewrite dispatched_app, Hstep. simpl.
    destruct fin as [self2 ?|self2 ? ?|]; [| |done];
      destruct IH as (-> & -> & -> & -> & -> & ->);
      (split; [lia | done]).
  - apply IH.
Qed.

Lemma loop_empty_table flags isatty input self ctl b :
  _interact_commands self = ∅ →
  dispatched (loop flags isatty self ctl b input).1 = [].
Proof.
  intros Hempty. revert b. induction input as [|ch input IH]; intros b;
    simpl; destruct isatty; simpl; try done.
  unfold interpret. rewrite Hempty, lookup_empty.
  unfold some_key_startswith. rewrite map_to_list_empty. simpl.
  destruct (_ || _); simpl; [done | apply IH].
Qed.

(** X19. Every command a session sends to the controller is offered: its action
    is the name of a permitted default action or, if object actions are
    enabled, one of the eleven object actions. *)
Theorem session_sends_offered_actions acts self ctl flags t c :
  (∀ k v, default_interact_commands self !! k = Some v → permitted acts v) →
  c ∈ dispatched (run self ctl flags t).1 →
  offered acts (has_object_actions self) c.
Proof.
  intros Hdef. unfold interact. destruct (stdout_isatty t); simpl;
    [|by intros ?%elem_of_nil].
  intros Hc.
  eapply (loop_offered acts flags (stdin_isatty t) (pending t)
            {| default_actions := default_actions self;
               has_object_actions := has_object_actions self;
               image_per_frame := image_per_frame self;
               image_dir := image_dir self;
               self_counter := self_counter self;
               default_interact_commands := default_interact_commands self;
               _interact_commands := default_interact_commands self |});
    [exact Hdef| |exact Hc].
  simpl. intros k v Hk. left. by eapply Hdef.
Qed.

(** X20. When a session returns or waits for input, the step counter has grown
    by the number of commands sent to the controller, and the configuration
    of the prompt is what it was. *)
Theorem session_counts_steps self ctl flags t :
  match (run self ctl flags t).2 with
  | Returned self' _ | Waiting self' _ _ =>
      self_counter self' =
        self_counter self + Z.of_nat (length (dispatched (run self ctl flags t).1)) ∧
      default_actions self' = default_actions self ∧
      has_object_actions self' = has_object_actions self ∧
      image_per_frame self' = image_per_frame self ∧
      image_dir self' = image_dir self ∧
      default_interact_commands self' = default_interact_commands self
  | Raised _ => True
  end.
Proof.
  unfold interact. destruct (stdout_isatty t); simpl; [|done].
  apply (loop_counter flags (stdin_isatty t) (pending t)
           {| default_actions := default_actions self;
              has_object_actions := has_object_actions self;
              image_per_frame := image_per_frame self;
              image_dir := image_dir self;
              self_counter := self_counter self;
              default_interact_commands := default_interact_commands self;
              _interact_commands := default_interact_commands self |}).
Qed.

(** X21. A prompt made with no default actions never sends anything to the
    controller, whatever is typed. *)
Theorem no_default_actions_no_steps flag dir per_frame ctl flags t :
  dispatched (run (init [] flag dir per_frame) ctl flags t).1 = [].
Proof.
  unfold interact. destruct (stdout_isatty t); simpl; [|done].
  by apply loop_empty_table.
Qed.

End SessionFacts.

(** ** Image names and files *)

Lemma string_app_inj_r (s1 s2 t : string) : s1 +:+ t = s2 +:+ t → s1 = s2.
Proof.
  intros H. apply (f_equal String.rev) in H. rewrite !rev_app_distr in H.
  apply (inj (String.append _)) in H. apply (f_equal String.rev) in H.
  by rewrite !rev_involutive in H.
Qed.

Lemma path_join_relative (dir : string) a (b : string) :
  a ≠ "/"%char →
  path_join dir (String a b) =
    (if (dir =? "")%string || endswith dir "/" then dir else dir +:+ "/")
    +:+ String a b.
Proof.
  intros Ha. unfold path_join. rewrite prefix_one.
  destruct (ascii_dec "/" a) as [<-|_]; [done|].
  destruct (_ || _); [done|]. by rewrite string_app_assoc.
Qed.

Lemma path_join_under (dir : string) a (b : string) :
  a ≠ "/"%char → String.prefix dir (path_join dir (String a b)) = true.
Proof.
  intros Ha. rewrite path_join_relative by done.
  destruct (_ || _); [apply prefix_app|].
  rewrite string_app_assoc. apply prefix_app.
Qed.

Lemma channel_name_relative f :
  f ∈ channel_names → ∃ a f', f = String a f' ∧ a ≠ "/"%char.
Proof.
  unfold channel_names. rewrite !elem_of_cons, elem_of_nil.
  intros [->|[->|[->|[->|[->|[]]]]]]; eexists _, _; (split; [reflexivity | done]).
Qed.

Lemma image_name_relative dir suffix per_frame f :
  f ∈ channel_names →
  image_name_of dir suffix per_frame f =
    (if (dir =? "")%string || endswith dir "/" then dir else dir +:+ "/")
    +:+ f +:+ (if per_frame then pretty suffix else "") +:+ ".png".
Proof.
  intros (a & f' & -> & Ha)%channel_name_relative. unfold image_name_of.
  rewrite string_app_cons. by apply path_join_relative.
Qed.

(** X24. Image names do not collide: in one directory, two channels of one step
    and one channel at two step counters (with a file per frame) get
    different names. *)
Theorem image_names_distinct dir s1 s2 f1 f2 :
  f1 ∈ channel_names → f2 ∈ channel_names →
  f1 = f2 ∨ s1 = s2 →
  image_name_of dir s1 true f1 = image_name_of dir s2 true f2 →
  f1 = f2 ∧ s1 = s2.
Proof.
  intros Hf1 Hf2 Hsame. rewrite !image_name_relative by done.
  intros H. apply (inj (String.append _)) in H.
  destruct Hsame as [<- | <-].
  - split; [done|]. apply (inj (String.append _)) in H.
    apply string_app_inj_r in H. by apply (inj pretty) in H.
  - split; [|done]. by apply string_app_inj_r in H.
Qed.

Section FrameWriterMore.

Context {frame : Type}.
Variable shape_str : frame → string.
Variable cvtColor_BGR2RGB minmax_uint8 astype_float32 : frame → frame.

Local Abbreviation write :=
  (write_image shape_str cvtColor_BGR2RGB minmax_uint8 astype_float32).

Lemma frame_writes_names c i d col :
  frame_filename <$> frame_writes cvtColor_BGR2RGB minmax_uint8 astype_float32 c i d col
    = channel_names.
Proof. reflexivity. Qed.

Lemma write_channel_image ev dir suffix per_frame c i d col ch name (img : frame) :
  ch ∈ frame_writes cvtColor_BGR2RGB minmax_uint8 astype_float32 c i d col →
  ImWrite name img ∈ write_channel shape_str ev dir suffix per_frame ch →
  name = image_name_of dir suffix per_frame (frame_filename ch).
Proof.
  unfold frame_writes, write_channel. rewrite !elem_of_cons, elem_of_nil.
  intros [->|[->|[->|[->|[->|[]]]]]]; simpl;
    match goal with |- context [match ?x with _ => _ end] => destruct x end;
    rewrite !elem_of_cons, elem_of_nil;
    intros [H|[H|[H|[]]]] || intros [H|[]]; try discriminate;
    by injection H.
Qed.

(** X23. Every image goes under the image directory: the name handed to
    [cv2.imwrite] starts with [image_dir]. *)
Theorem images_written_under_image_dir ev dir suffix per_frame c i d col name
    (img : frame) :
  ImWrite name img ∈ write ev dir suffix per_frame c i d col →
  String.prefix dir name = true.
Proof.
  unfold write_image. intros Hin.
  apply list_elem_of_In, in_flat_map in Hin as (ch & Hch & Hin).
  apply list_elem_of_In in Hch, Hin.
  apply (write_channel_image _ _ _ _ c i d col) in Hin as ->; [|exact Hch].
  assert (frame_filename ch ∈ channel_names) as (a & f' & -> & Ha)%channel_name_relative.
  { rewrite <- (frame_writes_names c i d col).
    apply list_elem_of_fmap. by exists ch. }
  unfold image_name_of. rewrite string_app_cons. by apply path_join_under.
Qed.


End FrameWriterMore.

(** ** The console listing and whole steps *)

Lemma insert_sorted_perm s l : insert_sorted s l ≡ₚ s :: l.
Proof.
  induction l as [|t l IH]; simpl; [done|].
  destruct (String.leb s t); [done|]. rewrite IH. apply Permutation_swap.
Qed.

Lemma sorted_perm l : sorted l ≡ₚ l.
Proof.
  unfold sorted. induction l as [|s l IH]; simpl; [done|].
  by rewrite insert_sorted_perm, IH.
Qed.

Lemma as_strs_fmap (l : list string) : as_strs (VStr <$> l) = Some l.
Proof. induction l as [|s l IH]; csimpl; [done|]. by rewrite IH. Qed.

Lemma omap_visible_strs md :
  ids_are_strings md →
  ∃ ss, omap visible_id (objects md) = VStr <$> ss.
Proof.
  intros Hids.
  assert (∀ o, o ∈ objects md → ∀ v, o !! "objectId" = Some v → ∃ s, v = VStr s)
    as Hobjs.
  { intros o Ho v Hv. eapply Hids; [|done]. apply elem_of_app. by left. }
  clear Hids. induction (objects md) as [|o l IH]; csimpl; [by exists []|].
  destruct IH as [ss Hss]; [intros o' Ho'; apply Hobjs; by right|].
  rewrite Hss. destruct (visible_id o) as [v|] eqn:Hvid; [|by exists ss].
  assert (∃ s, v = VStr s) as [s ->].
  { unfold visible_id in Hvid.
    destruct (o !! "visible") as [vis|]; [|done].
    destruct (truthy vis); [|done].
    eapply Hobjs; [by left | done]. }
  by exists (s :: ss).
Qed.

Section ListingFacts.

Context {frame : Type}.
Variable float_str : Qc → string.

Lemma affordance_line md o com k :
  (∀ v, o !! "objectId" = Some v → ∃ s, v = VStr s) →
  (∀ first rest v, inventoryObjects md = first :: rest →
                   first !! "objectId" = Some v → ∃ s, v = VStr s) →
  affordance md o com →
  ∃ line, command_info float_str k com = Ok line.
Proof.
  intros Ho Hinv Haff.
  destruct Haff as [oid v Hoid _ _|oid v Hoid _ _|oid t Hoid _ _
                    |first rest inv oid Hi Hfirst Hoid _
                    |first rest a _ _|first rest _|oid _ Hoid];
    try (destruct (Ho _ Hoid) as [s ->]);
    try (destruct (Hinv _ _ _ Hi Hfirst) as [s' ->]);
    vm_compute; eauto.
Qed.

Lemma print_commands_all (t : table) keys :
  (∀ k, k ∈ keys → ∃ v line, t !! k = Some v ∧ command_info float_str k v = Ok line) →
  ∃ lines, print_commands (frame := frame) float_str t keys = (lines, None) ∧
           length lines = length keys.
Proof.
  induction keys as [|k keys IH]; intros Hall; simpl; [by exists []|].
  destruct (Hall k) as (v & line & -> & ->); [by left|].
  destruct IH as (lines & -> & Hlen); [intros k' Hk'; apply Hall; by right|].
  exists (Print line :: lines). simpl. by rewrite Hlen.
Qed.

Lemma print_status_all flag md st :
  enumerate_affordances flag md = Ok st →
  ids_are_strings md →
  ∃ lines, print_status (frame := frame) float_str md st = (lines, None) ∧
           length lines = (3 + size (new_commands (cmds st)))%nat.
Proof.
  intros Hrun Hids. unfold print_status, join_sorted.
  assert (∃ ss, visible_objects st = VStr <$> ss) as [ss ->].
  { destruct flag.
    - apply for_each_visible in Hrun as ->. by apply omap_visible_strs.
    - injection Hrun as <-. by exists []. }
  rewrite as_strs_fmap.
  destruct (print_commands_all (new_commands (cmds st))
              (sorted (map_to_list (new_commands (cmds st))).*1))
    as (lines & -> & Hlen).
  - intros k Hk. rewrite sorted_perm in Hk.
    apply list_elem_of_fmap in Hk as ([k' v] & -> & Hk).
    apply elem_of_map_to_list in Hk. simpl.
    destruct (table_affordance _ _ _ _ _ Hrun Hk) as (o & Ho & Haff).
    destruct (affordance_line md o v k') as [line Hline]; [| |done|by eauto].
    + intros w Hw. eapply Hids; [|done]. apply elem_of_app. by left.
    + intros first rest w Hi Hw. eapply Hids; [|done].
      apply elem_of_app. right. rewrite Hi. by left.
  - eexists. split; [reflexivity|]. simpl.
    rewrite Hlen, sorted_perm, length_fmap, length_map_to_list. lia.
Qed.

(** X16. On an event whose identifiers are strings the listing raises nothing
    and prints the position, the instructions, the visible objects and one
    line for every entry of the dynamic table. *)
Theorem listing_prints_every_slot flag md st :
  enumerate_affordances flag md = Ok st →
  ids_are_strings md →
  ∃ lines, print_status (frame := frame) float_str md st = (lines, None) ∧
           length lines = (3 + size (new_commands (cmds st)))%nat.
Proof. apply print_status_all. Qed.

Lemma as_strs_not_str (l : list pyval) v :
  v ∈ l → (∀ s, v ≠ VStr s) → as_strs l = None.
Proof.
  intros Hin Hv. induction l as [|w l IH]; [by apply elem_of_nil in Hin|].
  apply elem_of_cons in Hin as [<- | Hin].
  - destruct v; try done. by destruct (Hv s).
  - simpl. destruct w; try done. by rewrite IH.
Qed.

(** X17. A visible descriptor whose identifier is not a string makes the listing
    fail with [TypeError] at the "Visible Objects" line, after the position
    and the instructions have been printed. *)
Theorem listing_rejects_non_string_id md st o v :
  enumerate_affordances true md = Ok st →
  o ∈ objects md →
  visible_id o = Some v →
  (∀ s, v ≠ VStr s) →
  print_status (frame := frame) float_str md st =
    ([Print ("Position: " +:+ agent_position md); Print command_message],
     Some TypeError).
Proof.
  intros Hrun Ho Hid Hv. unfold print_status, join_sorted.
  apply for_each_visible in Hrun as ->. simpl.
  rewrite (as_strs_not_str _ v); [done| |done].
  apply list_elem_of_omap. by exists o.
Qed.

End ListingFacts.

Section StepFacts.

Context {frame controller : Type}.
Variable shape_str : frame → string.
Variable cvtColor_BGR2RGB minmax_uint8 astype_float32 : frame → frame.
Variable float_str : Qc → string.
Variable controller_step : controller → command → result (controller * @event frame).


End StepFacts.

(** ** The dynamic table as a list of calls *)

Lemma register_app cc l1 l2 :
  register cc (l1 ++ l2) = register (register cc l1) l2.
Proof. unfold register. apply foldl_app. Qed.

Lemma openable_branch_calls o cc cc' :
  openable_branch o cc = Ok cc' →
  ∃ calls, openable_calls o = Ok calls ∧ cc' = register cc calls.
Proof.
  unfold openable_branch, openable_calls, getitem.
  destruct (o !! "openable") as [op|]; simpl; [|discriminate].
  destruct (truthy op); [|intros [= <-]; by exists []].
  destruct (o !! "isopen") as [io|]; simpl; [|discriminate].
  destruct (truthy io);
    (destruct (o !! "objectId") as [oid|]; simpl; [|discriminate]);
    intros [= <-]; eexists; (split; [reflexivity | done]).
Qed.

Lemma toggleable_branch_calls o cc cc' :
  toggleable_branch o cc = Ok cc' →
  ∃ calls, toggleable_calls o = Ok calls ∧ cc' = register cc calls.
Proof.
  unfold toggleable_branch, toggleable_calls, getitem.
  destruct (o !! "toggleable") as [t|]; [|intros [= <-]; by exists []].
  destruct (truthy t); [|intros [= <-]; by exists []].
  destruct (o !! "objectId") as [oid|]; simpl; [|discriminate].
  intros [= <-]. eexists. split; [reflexivity | done].
Qed.

Lemma inventory_branch_calls md o cc cc' :
  inventory_branch md o cc = Ok cc' →
  ∃ calls, inventory_calls md o = Ok calls ∧ cc' = register cc calls.
Proof.
  unfold inventory_branch, inventory_calls, put_commands.
  destruct (inventoryObjects md) as [|first rest].
  - unfold getitem.
    destruct (o !! "pickupable") as [p|]; simpl; [|discriminate].
    destruct (truthy p); [|intros [= <-]; by exists []].
    destruct (o !! "objectId") as [oid|]; simpl; [|discriminate].
    intros [= <-]. eexists. split; [reflexivity | done].
  - destruct (getitem first "objectId") as [inv|]; simpl; [|discriminate].
    destruct (put_condition o inv) as [[|]|]; simpl; try discriminate.
    + destruct (getitem o "objectId") as [oid|]; simpl; [|discriminate].
      intros [= <-]. eexists. split; [reflexivity | done].
    + intros [= <-]. by exists [].
Qed.

Lemma enumerate_object_calls md st o st' :
  enumerate_object md st o = Ok st' →
  ∃ calls, object_calls md o = Ok calls ∧ cmds st' = register (cmds st) calls.
Proof.
  unfold enumerate_object, object_calls.
  destruct (getitem o "visible") as [vis|]; simpl; [|discriminate].
  destruct (truthy vis); [|intros [= <-]; by exists []].
  destruct (getitem o "objectId") as [oid|]; simpl; [|discriminate].
  destruct (openable_branch o (cmds st)) as [cc1|] eqn:H1; simpl; [|discriminate].
  destruct (toggleable_branch o cc1) as [cc2|] eqn:H2; simpl; [|discriminate].
  destruct (inventory_branch md o cc2) as [cc3|] eqn:H3; simpl; [|discriminate].
  intros [= <-]. simpl.
  apply openable_branch_calls in H1 as (c1 & -> & ->).
  apply toggleable_branch_calls in H2 as (c2 & -> & ->).
  apply inventory_branch_calls in H3 as (c3 & -> & ->).
  simpl. eexists. split; [reflexivity|]. by rewrite !register_app.
Qed.

Lemma for_each_calls md l st st' :
  for_each (enumerate_object md) st l = Ok st' →
  ∃ calls, event_calls md l = Ok calls ∧ cmds st' = register (cmds st) calls.
Proof.
  revert st. induction l as [|o l IH]; intros st; simpl.
  - intros [= <-]. by exists [].
  - destruct (enumerate_object md st o) as [st1|] eqn:H1; simpl; [|discriminate].
    intros Hrest. apply enumerate_object_calls in H1 as (c & -> & Hc).
    apply IH in Hrest as (cs & -> & ->). simpl.
    eexists. split; [reflexivity|]. by rewrite Hc, register_app.
Qed.

Lemma register_full cc calls : 15 ≤ counter cc → register cc calls = cc.
Proof.
  intros Hfull. induction calls as [|call calls IH]; [done|].
  change (register cc (call :: calls))
    with (register (add_command cc call.1 call.2) calls).
  by rewrite add_command_full.
Qed.

Lemma register_take calls :
  register fresh_slots calls = register fresh_slots (take 14 calls).
Proof.
  destruct (decide (length calls ≤ 14)%nat) as [Hshort | Hlong].
  - by rewrite take_ge.
  - rewrite <- (take_drop 14 calls) at 1. rewrite register_app.
    apply register_full. rewrite register_counter; simpl; rewrite length_take; lia.
Qed.

Lemma register_ok cc calls : slots_ok cc → slots_ok (register cc calls).
Proof.
  revert cc. induction calls as [|c l IH]; intros cc Hok; [done|].
  apply IH. by apply add_command_ok.
Qed.

Lemma register_fresh_lookup calls n :
  new_commands (register fresh_slots calls) !! pretty n =
    if decide (1 ≤ n ≤ 14) then built <$> calls !! Z.to_nat (n - 1) else None.
Proof.
  rewrite register_take.
  assert (length (take 14 calls) ≤ 14)%nat as Hlen by (rewrite length_take; lia).
  assert (slots_ok (register fresh_slots (take 14 calls))) as [Hr Hk Hs]
    by apply register_ok, fresh_slots_ok.
  rewrite register_counter in Hk by (simpl; lia). simpl in Hk.
  destruct (take 14 calls !! Z.to_nat (n - 1)) as [call|] eqn:Hcall.
  - assert (1 ≤ n → n ≤ 14 ∧
            new_commands (register fresh_slots (take 14 calls)) !! pretty n
              = Some (built call)) as Hin.
    { intros Hn. apply lookup_lt_Some in Hcall as Hlt. split; [lia|].
      replace n with (counter fresh_slots + Z.of_nat (Z.to_nat (n - 1)))
        by (simpl; lia).
      apply register_lookup; [simpl; lia | done]. }
    case_decide as Hn.
    + destruct Hin as [_ ->]; [lia|].
      apply lookup_take_Some in Hcall as [-> _]. done.
    + apply eq_None_not_Some. rewrite Hk. intros (n' & Hn' & Heq).
      apply (inj pretty) in Heq as <-.
      assert (n < 1) as Hsmall by (destruct (decide (1 ≤ n)); [destruct Hin; lia | lia]).
      lia.
  - assert (new_commands (register fresh_slots (take 14 calls)) !! pretty n = None)
      as ->.
    { apply eq_None_not_Some. rewrite Hk. intros (n' & Hn' & Heq).
      apply (inj pretty) in Heq as <-.
      apply lookup_ge_None in Hcall. lia. }
    case_decide as Hn; [|done].
    destruct (calls !! Z.to_nat (n - 1)) as [call|] eqn:Hcall'; [|done].
    rewrite lookup_take_lt in Hcall by lia. congruence.
Qed.

(** X7. The dynamic table of a step holds the first fourteen calls of
    [add_command], in the order the loop makes them over the descriptors of
    the event: slot [n] is the [n]-th call, and what comes after the
    fourteenth is dropped. *)
Theorem dynamic_table_first_fourteen md st :
  enumerate_affordances true md = Ok st →
  ∃ calls,
    event_calls md (objects md) = Ok calls ∧
    cmds st = register fresh_slots calls ∧
    ∀ n, new_commands (cmds st) !! pretty n =
           if decide (1 ≤ n ≤ 14) then built <$> calls !! Z.to_nat (n - 1) else None.
Proof.
  intros Hrun. apply for_each_calls in Hrun as (calls & Hcalls & Hcmds).
  exists calls. split; [done|]. split; [done|].
  intros n. rewrite Hcmds. apply register_fresh_lookup.
Qed.

(** ** Witnesses *)

Lemma fridge_run : enumerate_affordances true fridge_md = Ok fridge_state.
Proof. vm_compute. reflexivity. Qed.

Lemma pantry_run : enumerate_affordances true pantry_md = Ok pantry_state.
Proof. vm_compute. reflexivity. Qed.

Lemma fridge_ids : ids_are_strings fridge_md.
Proof.
  intros o v. simpl. rewrite !elem_of_cons, elem_of_nil.
  intros [->|[->|[]]] Hv; vm_compute in Hv; injection Hv as <-; eauto.
Qed.

Lemma all_defaults_permitted k v :
  default_interact_commands (init all_default_actions true "." false) !! k = Some v →
  permitted all_default_actions v.
Proof. intros H. by apply default_lookup in H as [_ H]. Qed.

(** Witness of X8. *)
Lemma hand_actions_follow_inventory_witness :
  enumerate_affordances true fridge_md = Ok fridge_state ∧
  new_commands (cmds fridge_state) !! "3" = Some put_apple ∧
  "PutObject" ∈ object_actions ∧
  inventoryObjects fridge_md ≠ [].
Proof.
  assert (new_commands (cmds fridge_state) !! "3" = Some put_apple) as Hk
    by (vm_compute; reflexivity).
  destruct (hand_actions_follow_inventory true fridge_md fridge_state "3" put_apple
              "PutObject" fridge_run Hk eq_refl) as (Hin & _ & Hheld).
  split; [exact fridge_run|]. split; [exact Hk|]. split; [exact Hin|].
  apply Hheld. in_list.
Defined.

(** Witness of X9. *)
Lemma put_object_never_into_itself_witness :
  enumerate_affordances true fridge_md = Ok fridge_state ∧
  new_commands (cmds fridge_state) !! "3" = Some put_apple ∧
  ∃ inv oid, dict_get put_apple "objectId" = Some inv ∧
             dict_get put_apple "receptacleObjectId" = Some oid ∧
             py_eq inv oid = false.
Proof.
  assert (new_commands (cmds fridge_state) !! "3" = Some put_apple) as Hk
    by (vm_compute; reflexivity).
  split; [exact fridge_run|]. split; [exact Hk|].
  exact (put_object_never_into_itself true fridge_md fridge_state "3" put_apple
           fridge_run Hk eq_refl).
Defined.

(** Witness of X10. *)
Lemma visible_objects_listed_witness :
  enumerate_affordances true pantry_md = Ok pantry_state ∧
  visible_objects pantry_state = omap visible_id (objects pantry_md).
Proof.
  split; [exact pantry_run|].
  exact (visible_objects_listed pantry_md pantry_state pantry_run).
Defined.

(** Witness of X11. *)
Lemma invisible_objects_ignored_witness :
  enumerate_affordances true hidden_md = Ok fridge_state ∧
  enumerate_affordances true
    (with_objects hidden_md (List.filter is_visible (objects hidden_md)))
    = Ok fridge_state.
Proof.
  assert (enumerate_affordances true hidden_md = Ok fridge_state) as Hrun
    by (vm_compute; reflexivity).
  split; [exact Hrun|].
  exact (invisible_objects_ignored true hidden_md fridge_state Hrun).
Defined.

(** Witness of X12. *)
Lemma earlier_slots_stable_witness :
  enumerate_affordances true (with_objects pantry_md [fridge]) = Ok fridge_state ∧
  enumerate_affordances true (with_objects pantry_md ([fridge] ++ [pantry]))
    = Ok pantry_state ∧
  new_commands (cmds fridge_state) ⊆ new_commands (cmds pantry_state).
Proof.
  assert (enumerate_affordances true (with_objects pantry_md [fridge])
          = Ok fridge_state) as H1 by (vm_compute; reflexivity).
  assert (enumerate_affordances true (with_objects pantry_md ([fridge] ++ [pantry]))
          = Ok pantry_state) as H2 by (vm_compute; reflexivity).
  split; [exact H1|]. split; [exact H2|].
  exact (proj1 (earlier_slots_stable pantry_md [fridge] [pantry] fridge_state
                  pantry_state H1 H2)).
Defined.

(** Witness of X13. *)
Lemma enumeration_raises_key_errors_witness :
  enumerate_affordances true broken_md = Raise (KeyError "visible") ∧
  ∃ k, KeyError "visible" = KeyError k ∧ k ∈ descriptor_keys.
Proof.
  assert (enumerate_affordances true broken_md = Raise (KeyError "visible")) as Hrun
    by (vm_compute; reflexivity).
  split; [exact Hrun|].
  exact (enumeration_raises_key_errors true broken_md _ Hrun).
Defined.

(** Witness of X2. *)
Lemma static_table_of_set_witness :
  (∀ a, a ∈ [LookUp; MoveAhead] ↔ a ∈ [MoveAhead; LookUp; LookUp]) ∧
  default_interact_commands (init [LookUp; MoveAhead] true "." false) =
  default_interact_commands (init [MoveAhead; LookUp; LookUp] false "out" true).
Proof.
  assert (∀ a, a ∈ [LookUp; MoveAhead] ↔ a ∈ [MoveAhead; LookUp; LookUp]) as Hsame.
  { intros a. rewrite !elem_of_cons, elem_of_nil. tauto. }
  split; [exact Hsame|].
  exact (static_table_of_set _ _ true false "." "out" false true Hsame).
Defined.

(** Witness of X15. *)
Lemma static_keys_not_shadowed_witness :
  enumerate_affordances true fridge_md = Ok fridge_state ∧
  "i" ∈ static_keys ∧
  fridge_table !! "i" = all_defaults !! "i".
Proof.
  assert ("i" ∈ static_keys) as Hi by in_list.
  split; [exact fridge_run|]. split; [exact Hi|].
  exact (proj1 (static_keys_not_shadowed all_default_actions true "." false true
                  fridge_md fridge_state "i" fridge_run Hi)).
Defined.

(** Witness of X4. *)
Lemma feed_invariant_witness :
  feed all_defaults "" [ESC; "["%char] = ([], Some (String ESC "[")) ∧
  pending_prefix all_defaults (String ESC "[").
Proof.
  assert (feed all_defaults "" [ESC; "["%char] = ([], Some (String ESC "["))) as Hfeed
    by (vm_compute; reflexivity).
  split; [exact Hfeed|].
  exact (proj2 (proj2 (feed_invariant all_defaults _ _ _ Hfeed))).
Defined.

(** Witness of X6. *)
Lemma keys_reachable_witness :
  enumerate_affordances true fridge_md = Ok fridge_state ∧
  fridge_table !! "3" = Some put_apple ∧
  ("3" ∉ two_digit_keys) ∧
  feed fridge_table "" (list_ascii_of_string "3") = ([put_apple], Some "").
Proof.
  assert (fridge_table !! "3" = Some put_apple) as Hk by (vm_compute; reflexivity).
  assert ("3" ∉ two_digit_keys) as Hnot
    by (apply (proj1 (bool_decide_eq_false _)); vm_compute; reflexivity).
  split; [exact fridge_run|]. split; [exact Hk|]. split; [exact Hnot|].
  exact (keys_reachable all_default_actions true "." false true fridge_md
           fridge_state "3" put_apple fridge_run Hk Hnot).
Defined.

(** Witness of X19. *)
Lemma session_sends_offered_actions_witness :
  close_fridge ∈ dispatched (fridge_session "i1").1 ∧
  offered all_default_actions true close_fridge.
Proof.
  assert (close_fridge ∈ dispatched (fridge_session "i1").1) as Hin.
  { assert (dispatched (fridge_session "i1").1
            = [[("action", VStr "LookUp")]; close_fridge]) as ->
      by (vm_compute; reflexivity).
    right. left. }
  split; [exact Hin|].
  exact (session_sends_offered_actions (λ _ : unit, "()") id id id (λ _, "0.1")
           fridge_controller all_default_actions
           (init all_default_actions true "." false) tt no_flags (typing "i1")
           close_fridge all_defaults_permitted Hin).
Defined.

(** Witness of X24. *)
Lemma image_names_distinct_witness :
  "depth" ∈ channel_names ∧ "depth_raw" ∈ channel_names ∧
  image_name_of "frames" 3 true "depth" = image_name_of "frames" 3 true "depth" ∧
  image_name_of "frames" 3 true "depth" ≠ image_name_of "frames" 3 true "depth_raw".
Proof.
  assert ("depth" ∈ channel_names) as Hd by in_list.
  assert ("depth_raw" ∈ channel_names) as Hr by in_list.
  split; [exact Hd|]. split; [exact Hr|]. split; [reflexivity|].
  intros Heq.
  destruct (image_names_distinct "frames" 3 3 "depth" "depth_raw" Hd Hr
              (or_intror eq_refl) Heq) as [Hname _].
  discriminate Hname.
Defined.

(** Witness of X23. *)
Lemma images_written_under_image_dir_witness :
  ImWrite "frames/color.png" tt
    ∈ write_image (λ _ : unit, "()") id id id color_event "frames" 0 false
        false false false true ∧
  String.prefix "frames" "frames/color.png" = true.
Proof.
  assert (ImWrite "frames/color.png" tt
            ∈ write_image (λ _ : unit, "()") id id id color_event "frames" 0 false
                false false false true) as Hin.
  { assert (write_image (λ _ : unit, "()") id id id color_event "frames" 0 false
              false false false true
            = Print "()" :: Print "Image frames/color.png"
              :: ImWrite "frames/color.png" tt
              :: replicate 4
                   (Print "No frame present, call initialize with the right parameters"))
      as -> by (vm_compute; reflexivity).
    right. right. left. }
  split; [exact Hin|].
  exact (images_written_under_image_dir (λ _ : unit, "()") id id id color_event
           "frames" 0 false false false false true _ _ Hin).
Defined.

(** Witness of X25. *)
Lemma raw_depth_name_kept_witness :
  (∀ c d, "frames" = String c d → in_chars ".png" c = false) ∧
  strip ".png" (image_name_of "frames" 3 false "depth_raw") = "frames/depth_raw".
Proof.
  assert (∀ c d, "frames" = String c d → in_chars ".png" c = false) as Hdir
    by (intros c d [= <- _]; reflexivity).
  split; [exact Hdir|].
  exact (raw_depth_name_kept "frames" 3 Hdir).
Defined.

(** Witness of X16. *)
Lemma listing_prints_every_slot_witness :
  enumerate_affordances true fridge_md = Ok fridge_state ∧
  ids_are_strings fridge_md ∧
  ∃ lines, print_status (frame := unit) (λ _, "0.1") fridge_md fridge_state
             = (lines, None) ∧
           length lines = (3 + size (new_commands (cmds fridge_state)))%nat.
Proof.
  split; [exact fridge_run|]. split; [exact fridge_ids|].
  exact (listing_prints_every_slot (λ _, "0.1") true fridge_md fridge_state
           fridge_run fridge_ids).
Defined.

(** Witness of X17. *)
Lemma listing_rejects_non_string_id_witness :
  enumerate_affordances true numbered_md = Ok numbered_state ∧
  numbered_box ∈ objects numbered_md ∧
  visible_id numbered_box = Some (VInt 7) ∧
  print_status (frame := unit) (λ _, "0.1") numbered_md numbered_state =
    ([Print ("Position: " +:+ agent_position numbered_md); Print command_message],
     Some TypeError).
Proof.
  assert (enumerate_affordances true numbered_md = Ok numbered_state) as Hrun
    by (vm_compute; reflexivity).
  assert (numbered_box ∈ objects numbered_md) as Hin by left.
  split; [exact Hrun|]. split; [exact Hin|]. split; [reflexivity|].
  apply (listing_rejects_non_string_id (λ _, "0.1") numbered_md numbered_state
           numbered_box (VInt 7) Hrun Hin eq_refl).
  intros s. discriminate.
Defined.

Lemma fridge_well_formed : well_formed fridge_md.
Proof.
  split; [|by eexists].
  constructor; [|constructor].
  intros k. rewrite !elem_of_cons, elem_of_nil.
  intros [->|[->|[->|[->|[->|[->|[]]]]]]]; vm_compute; eauto.
Qed.


(** X14. The enumeration succeeds on every event whose descriptors carry the six
    attributes the loop reads and whose held item, if any, has an
    identifier. *)
Theorem enumeration_succeeds_when_complete flag md :
  well_formed md → ∃ st, enumerate_affordances flag md = Ok st.
Proof. apply enumerate_affordances_total. Qed.

(** Witness of X14. *)
Lemma enumeration_succeeds_when_complete_witness :
  well_formed fridge_md ∧ ∃ st, enumerate_affordances true fridge_md = Ok st.
Proof.
  split; [exact fridge_well_formed|].
  exact (enumeration_succeeds_when_complete true fridge_md fridge_well_formed).
Defined.

(** Witness of X7. *)
Lemma dynamic_table_first_fourteen_witness :
  enumerate_affordances true pantry_md = Ok pantry_state ∧
  ∃ calls,
    event_calls pantry_md (objects pantry_md) = Ok calls ∧
    cmds pantry_state = register fresh_slots calls ∧
    length calls = 20%nat.
Proof.
  split; [exact pantry_run|].
  destruct (dynamic_table_first_fourteen pantry_md pantry_state pantry_run)
    as (calls & Hcalls & Hcmds & _).
  exists calls. split; [exact Hcalls|]. split; [exact Hcmds|].
  assert (event_calls pantry_md (objects pantry_md)
          = Ok (open_receptacle_calls (VStr "Apple|1") (VStr "Fridge|1") ++
                open_receptacle_calls (VStr "Apple|1") (VStr "Fridge|2"))%list) as Hev
    by (vm_compute; reflexivity).
  rewrite Hev in Hcalls. injection Hcalls as <-. reflexivity.
Defined.
